(** * dsvc: typed extraction of CAD features and their structural diff

    A shallow embedding of [dsvc/cad_parser_xml.py] (extraction of typed
    feature records from an XML tree, comparison of two feature
    collections) and of [parse_cam_xml] from [dsvc/cam_parser_xml.py],
    followed by the properties proved about them.

    Conventions.
    - A Python [str] is a [string]; a character is a code point below 256.
    - A Python [float] object is a pair of its identity and its IEEE 754
      binary64 value ([spec_float] of the standard library, [prec = 53],
      [emax = 1024]).  The identity matters in one place only: comparing
      two dicts compares their values with [is] before [==].
    - A Python [dict] keyed by [str] is a finite map [gmap string _].  A
      loop over [d.items()] is a [map_fold]; every such loop of the program
      writes, at each key, to that key only, so none of the results below
      depends on the iteration order.
    - Code that may raise runs in the monad [M]: a state (the next free
      object identity) and an exception. *)

From Stdlib Require Import ZArith Ascii String Floats.SpecFloat.
From stdpp Require Import gmap strings list fin_maps.

(** ** The builtins of Python the program calls *)

Module Py.

(** [str.isspace] on one character: the white space [str.strip] and
    [str.split] without arguments work with. *)
Definition isspace (c : ascii) : bool :=
  let n := nat_of_ascii c in
  ((9 <=? n) && (n <=? 13)) || ((28 <=? n) && (n <=? 32)) || (n =? 133) || (n =? 160).

Fixpoint lstrip_with (p : ascii → bool) (s : string) : string :=
  match s with
  | String c s' => if p c then lstrip_with p s' else s
  | EmptyString => EmptyString
  end.

Fixpoint rstrip_with (p : ascii → bool) (s : string) : string :=
  match s with
  | EmptyString => EmptyString
  | String c s' =>
      match rstrip_with p s' with
      | EmptyString => if p c then EmptyString else String c EmptyString
      | r => String c r
      end
  end.

(** [s.strip()] *)
Definition strip (s : string) : string :=
  rstrip_with isspace (lstrip_with isspace s).

(** [s.split()]: the maximal runs of characters that are not white space;
    [tok] is the run being read. *)
Fixpoint split_from (tok : string) (s : string) : list string :=
  match s with
  | EmptyString => match tok with EmptyString => [] | _ => [tok] end
  | String c s' =>
      if isspace c
      then match tok with
           | EmptyString => split_from EmptyString s'
           | _ => tok :: split_from EmptyString s'
           end
      else split_from (tok +:+ String c EmptyString) s'
  end.

Definition split (s : string) : list string := split_from EmptyString s.

Definition isdigit (c : ascii) : bool :=
  let n := nat_of_ascii c in (48 <=? n) && (n <=? 57).

Definition digit_value (c : ascii) : Z := Z.of_nat (nat_of_ascii c) - 48.

Definition is_underscore (c : ascii) : bool := nat_of_ascii c =? 95.

(** The underscores of a numeric literal: one is allowed between two
    digits only; [prev] is the character read before. *)
Fixpoint drop_underscores (prev : option ascii) (s : string) : option string :=
  match s with
  | EmptyString =>
      match prev with
      | Some p => if is_underscore p then None else Some EmptyString
      | None => Some EmptyString
      end
  | String c s' =>
      if is_underscore c
      then match prev with
           | Some p => if isdigit p then drop_underscores (Some c) s' else None
           | None => None
           end
      else match prev with
           | Some p =>
               if is_underscore p && negb (isdigit c) then None
               else String c <$> drop_underscores (Some c) s'
           | None => String c <$> drop_underscores (Some c) s'
           end
  end.

(** The white space [float] itself strips: narrower than [isspace]. *)
Definition float_isspace (c : ascii) : bool :=
  let n := nat_of_ascii c in
  ((9 <=? n) && (n <=? 13)) || (n =? 32) || (n =? 133) || (n =? 160).

Definition parse_sign (s : string) : bool * string :=
  match s with
  | String c r =>
      if nat_of_ascii c =? 45 then (true, r)
      else if nat_of_ascii c =? 43 then (false, r)
      else (false, s)
  | EmptyString => (false, s)
  end.

(** Reads a run of digits: the number read so far, how many digits, and
    what is left. *)
Fixpoint take_digits (acc : Z) (count : nat) (s : string) : Z * nat * string :=
  match s with
  | String c r =>
      if isdigit c then take_digits (10 * acc + digit_value c) (S count) r
      else (acc, count, s)
  | EmptyString => (acc, count, s)
  end.

Definition parse_exponent (s : string) : option Z :=
  let '(neg, r) := parse_sign s in
  let '(e, n, rest) := take_digits 0 0 r in
  match n, rest with
  | S _, EmptyString => Some (if neg then (- e)%Z else e)
  | _, _ => None
  end.

(** [digits [. digits] [(e|E) [sign] digits]] with a digit before or after
    the point: the decimal mantissa and the power of ten. *)
Definition parse_decimal (s : string) : option (Z * Z) :=
  let '(m1, n1, r1) := take_digits 0 0 s in
  let '(m2, n2, r2) :=
    match r1 with
    | String c r => if nat_of_ascii c =? 46 then take_digits m1 0 r else (m1, 0, r1)
    | EmptyString => (m1, 0, r1)
    end in
  match n1 + n2 with
  | 0 => None
  | S _ =>
      match r2 with
      | EmptyString => Some (m2, (- Z.of_nat n2)%Z)
      | String c r =>
          if (nat_of_ascii c =? 101) || (nat_of_ascii c =? 69)
          then e ← parse_exponent r; Some (m2, (e - Z.of_nat n2)%Z)
          else None
      end
  end.

Definition lower (c : ascii) : ascii :=
  let n := nat_of_ascii c in
  if (65 <=? n) && (n <=? 90) then ascii_of_nat (n + 32) else c.

Fixpoint lowercase (s : string) : string :=
  match s with
  | EmptyString => EmptyString
  | String c r => String (lower c) (lowercase r)
  end.

Definition prec : Z := 53.
Definition emax : Z := 1024.

(** The binary64 value nearest to [m * 10 ^ e] (ties to even), [m >= 0]. *)
Definition of_decimal (neg : bool) (m e : Z) : spec_float :=
  match m with
  | Zpos p =>
      if (0 <=? e)%Z
      then binary_round prec emax neg (Z.to_pos (Zpos p * 10 ^ e)) 0
      else let '(q, e', l) := SFdiv_core_binary prec emax (Zpos p) 0 (10 ^ (- e)) 0 in
           binary_round_aux prec emax neg q e' l
  | _ => S754_zero neg
  end.

(** The value of [float(s)] for a [str]; [None] where Python raises
    [ValueError]. *)
Definition string_to_double (s : string) : option spec_float :=
  s1 ← drop_underscores None s;
  match rstrip_with float_isspace (lstrip_with float_isspace s1) with
  | EmptyString => None
  | s2 =>
      let '(neg, r) := parse_sign s2 in
      match parse_decimal r with
      | Some (m, e) => Some (of_decimal neg m e)
      | None =>
          let w := lowercase r in
          if (w =? "inf")%string || (w =? "infinity")%string then Some (S754_infinity neg)
          else if (w =? "nan")%string then Some S754_nan
          else None
      end
  end.

(** [x == y] on two float values. *)
Definition float_eq (x y : spec_float) : bool := SFeqb x y.

Definition isnan (x : spec_float) : bool :=
  match x with S754_nan => true | _ => false end.

End Py.

(** ** Exceptions, objects and the monad of the extractors *)

Inductive exn := AttributeError | ValueError | IndexError.

(** A float object: [id(f)] and its value. *)
Record PyFloat := { id_of : nat; value_of : spec_float }.

(** A computation that may allocate float objects and may raise: from the
    next free identity to an exception, or a result and the next free
    identity. *)
Definition M (A : Type) : Type := nat → exn + A * nat.

Global Instance M_ret : MRet M := λ A a n, inr (a, n).

Global Instance M_bind : MBind M := λ A B f m n,
  match m n with
  | inl e => inl e
  | inr (a, n') => f a n'
  end.

Definition raise {A} (e : exn) : M A := λ _, inl e.

(** [float(s)]: a new float object, or [ValueError]. *)
Definition float (s : string) : M PyFloat := λ n : nat,
  match Py.string_to_double s with
  | Some v => inr ({| id_of := n; value_of := v |}, S n)
  | None => inl ValueError
  end.

(** [parts[i]] *)
Definition getitem (parts : list string) (i : nat) : M string :=
  match parts !! i with
  | Some p => mret p
  | None => raise IndexError
  end.

(** [all(f(x) for x in l)]: stops at the first [False]. *)
Fixpoint all {A} (f : A → M bool) (l : list A) : M bool :=
  match l with
  | [] => mret true
  | x :: l' => f x ≫= λ b : bool, if b then all f l' else mret false
  end.

(** [for x in l: acc = body(acc, x)] *)
Fixpoint for_each {A B} (body : B → A → M B) (l : list A) (acc : B) : M B :=
  match l with
  | [] => mret acc
  | x :: l' => acc' ← body acc x; for_each body l' acc'
  end.

(** [[f(x) for x in l]] *)
Fixpoint map_M {A B} (f : A → M B) (l : list A) : M (list B) :=
  match l with
  | [] => mret []
  | x :: l' => y ← f x; ys ← map_M f l'; mret (y :: ys)
  end.

(** ** The data model *)

(** [xml.etree.ElementTree.Element]: [text] is [None] for an element
    without character data before its first child. *)
#[local] Unset Elimination Schemes.
Inductive Element :=
  mkElement { tag : string; text : option string; children : list Element }.
#[local] Set Elimination Schemes.

(** What [extract_features] stores for an attribute: a float, the dict
    [{'x': .., 'y': .., 'z': ..}] of three floats, or a str. *)
Inductive Value :=
  | Number (f : PyFloat)
  | Point (x y z : PyFloat)
  | Text (s : string).

(** [CADFeatures = dict[str, list[dict[str, any]]]] *)
Abbreviation Record_ := (gmap string Value).
Abbreviation CADFeatures := (gmap string (list (gmap string Value))).

(** [a == b] on two values of a dict ([PyObject_RichCompareBool]): the
    same object, or equal. *)
Definition item_eq (a b : PyFloat) : bool :=
  bool_decide (id_of a = id_of b) || Py.float_eq (value_of a) (value_of b).

(** [a != b] on two attribute values.  Floats compare by value, strs by
    their characters, two point dicts entry by entry with [item_eq];
    values of different types are unequal. *)
Definition ne (a b : Value) : bool :=
  match a, b with
  | Number f, Number g => negb (Py.float_eq (value_of f) (value_of g))
  | Point x y z, Point x' y' z' => negb (item_eq x x' && item_eq y y' && item_eq z z')
  | Text s, Text t => negb (String.eqb s t)
  | _, _ => true
  end.

(** ** cad_parser_xml.py *)

Definition is_number (s : string) : M bool := λ n : nat,
  match float s n with
  | inr (_, _) => inr (true, n)
  | inl ValueError => inr (false, n)
  | inl e => inl e
  end.

Definition is_point (text : string) : M bool :=
  let parts := Py.split text in
  if bool_decide (length parts = 3) then all is_number parts else mret false.

Definition parse_point (text : string) : M Value :=
  let parts := Py.split text in
  p0 ← getitem parts 0; x ← float p0;
  p1 ← getitem parts 1; y ← float p1;
  p2 ← getitem parts 2; z ← float p2;
  mret (Point x y z).

(** Lines 79-84 of [extract_features]: the value stored for the stripped
    text of an attribute. *)
Definition classify (sub_child_text : string) : M Value :=
  is_number sub_child_text ≫= λ b : bool,
  if b then f ← float sub_child_text; mret (Number f)
  else
    is_point sub_child_text ≫= λ p : bool,
    if p then parse_point sub_child_text
    else mret (Text sub_child_text).

(** [e.text.strip()]: [None] has no [strip]. *)
Definition text_strip (e : Element) : M string :=
  match text e with
  | Some t => mret (Py.strip t)
  | None => raise AttributeError
  end.

(** Lines 77-84: one turn of the inner loop, without the store. *)
Definition attribute_value (sub_child : Element) : M Value :=
  sub_child_text ← text_strip sub_child;
  classify sub_child_text.

(** Lines 75-84: the record of one feature node. *)
Definition feature_details (child : Element) : M Record_ :=
  for_each (λ details sub_child,
      v ← attribute_value sub_child;
      mret (<[tag sub_child := v]> details))
    (children child) ∅.

(** Lines 85-87: [features[child.tag].append(feature_details)], after
    the list is created when the tag is new. *)
Definition append_feature (features : CADFeatures) (t : string) (details : Record_)
  : CADFeatures :=
  let features :=
    match features !! t with
    | None => <[t := []]> features
    | Some _ => features
    end in
  alter (λ l, l ++ [details]) t features.

Definition extract_features (root : Element) : M CADFeatures :=
  for_each (λ features child,
      details ← feature_details child;
      mret (append_feature features (tag child) details))
    (children root) ∅.

(** [{'old': .., 'new': ..}] *)
Record FieldChange := { old : Value; new : Value }.

(** [{'name': .., 'fields': ..}] *)
Record Modification := { name : Value; fields : gmap string FieldChange }.

(** [{'additions': .., 'modifications': .., 'removals': ..}] *)
Record FeatureDifferences := {
  additions : gmap string (list Record_);
  modifications : gmap string (list Modification);
  removals : gmap string (list Record_)
}.

Definition no_differences : FeatureDifferences :=
  {| additions := ∅; modifications := ∅; removals := ∅ |}.

(** The truth value of a dict: it is not empty. *)
Definition dict_bool {A} (d : gmap string A) : bool := negb (size d =? 0).

(** Lines 160-163: the fields of [cad2_detail] that are new or differ. *)
Definition changed_fields (cad1_detail cad2_detail : Record_) : gmap string FieldChange :=
  map_fold (λ key value changed,
      if match cad1_detail !! key with
         | None => true
         | Some v => ne v value
         end
      then <[key := {| old := default (Text "N/A") (cad1_detail !! key);
                       new := value |}]> changed
      else changed)
    ∅ cad2_detail.

(** Lines 158-168: the loop over [zip(cad2_list, cad1_list)]. *)
Definition feature_modifications (cad2_list cad1_list : list Record_) : list Modification :=
  foldl (λ acc '(cad2_detail, cad1_detail),
      let changed := changed_fields cad1_detail cad2_detail in
      if dict_bool changed
      then acc ++ [ {| name := default (Text "Unknown") (cad2_detail !! "Name");
                       fields := changed |} ]
      else acc)
    [] (zip cad2_list cad1_list).

(** Lines 153-174: the body of the first loop. *)
Definition additions_step (cad1 cad2 : CADFeatures)
    (feature : string) (cad2_details : list Record_) (m : FeatureDifferences)
  : FeatureDifferences :=
  match cad1 !! feature with
  | None =>
      {| additions := <[feature := cad2_details]> (additions m);
         modifications := modifications m;
         removals := removals m |}
  | Some _ =>
      let cad2_list := default [] (cad2 !! feature) in
      let cad1_list := default [] (cad1 !! feature) in
      let mods := feature_modifications cad2_list cad1_list in
      let m :=
        match mods with
        | [] => m
        | _ => {| additions := additions m;
                  modifications := <[feature := mods]> (modifications m);
                  removals := removals m |}
        end in
      if bool_decide (length cad1_list < length cad2_list)
      then {| additions := <[feature := drop (length cad1_list) cad2_list]> (additions m);
              modifications := modifications m;
              removals := removals m |}
      else m
  end.

(** Lines 178-184: the body of the second loop. *)
Definition removals_step (cad1 cad2 : CADFeatures)
    (feature : string) (cad1_details : list Record_) (m : FeatureDifferences)
  : FeatureDifferences :=
  match cad2 !! feature with
  | None =>
      {| additions := additions m;
         modifications := modifications m;
         removals := <[feature := cad1_details]> (removals m) |}
  | Some _ =>
      let cad1_list := default [] (cad1 !! feature) in
      let cad2_list := default [] (cad2 !! feature) in
      if bool_decide (length cad2_list < length cad1_list)
      then {| additions := additions m;
              modifications := modifications m;
              removals := <[feature := drop (length cad2_list) cad1_list]> (removals m) |}
      else m
  end.

Definition compare_features (cad1 cad2 : CADFeatures) : FeatureDifferences :=
  let m := map_fold (additions_step cad1 cad2) no_differences cad2 in
  map_fold (removals_step cad1 cad2) m cad1.

(** ** cam_parser_xml.py *)

Definition TOOLSTYPELIST : list string := ["TurningToolStandard"; "Drill"; "SpotDrill"].

(** The tuple of line 46. *)
Definition NUMERIC_ATTRIBUTES : list string :=
  ["Step"; "SurfaceSpeed"; "FeedRate"; "Stock"; "NoseRadius"].

(** What [parse_cam_xml] stores for a child of an operation: a float or a
    str for a leaf, the dict of strs of a tool. *)
Inductive CamValue :=
  | Leaf (v : Value)
  | Tool (tool_info : gmap string string).

Abbreviation CAMOperations := (gmap string (list (gmap string CamValue))).

(** Lines 40-42 *)
Definition tool_info_of (attribute : Element) : M (gmap string string) :=
  for_each (λ tool_info tool_attr,
      t ← text_strip tool_attr;
      mret (<[tag tool_attr := t]> tool_info))
    (children attribute) ∅.

(** Lines 45-49 *)
Definition cam_leaf (attribute : Element) : M Value :=
  attribute_text ← text_strip attribute;
  if bool_decide (tag attribute ∈ NUMERIC_ATTRIBUTES)
  then f ← float attribute_text; mret (Number f)
  else mret (Text attribute_text).

(** Lines 38-49 *)
Definition cam_attribute (attribute : Element) : M CamValue :=
  if bool_decide (tag attribute ∈ TOOLSTYPELIST)
  then tool_info ← tool_info_of attribute; mret (Tool tool_info)
  else v ← cam_leaf attribute; mret (Leaf v).

(** Lines 34-49 *)
Definition operation_details (operation : Element) : M (gmap string CamValue) :=
  for_each (λ details attribute,
      v ← cam_attribute attribute;
      mret (<[tag attribute := v]> details))
    (children operation) ∅.

(** Lines 52-54 *)
Definition append_operation (operations : CAMOperations) (t : string)
    (details : gmap string CamValue) : CAMOperations :=
  let operations :=
    match operations !! t with
    | None => <[t := []]> operations
    | Some _ => operations
    end in
  alter (λ l, l ++ [details]) t operations.

(** [parse_cam_xml], from the root [parse_xml_file] returns. *)
Definition parse_cam_xml (root : Element) : M CAMOperations :=
  for_each (λ operations operation,
      details ← operation_details operation;
      mret (append_operation operations (tag operation) details))
    (children root) ∅.

(** ** Definitions the statements use *)

(** [v != v] holds for a NaN float only. *)
Definition is_nan_number (v : Value) : bool :=
  match v with
  | Number f => Py.isnan (value_of f)
  | _ => false
  end.

(** What [changed_fields] holds at a key, from the two records. *)
Definition field_change (cad1_detail cad2_detail : Record_) (key : string)
  : option FieldChange :=
  match cad2_detail !! key with
  | None => None
  | Some value =>
      match cad1_detail !! key with
      | None => Some {| old := Text "N/A"; new := value |}
      | Some v => if ne v value then Some {| old := v; new := value |} else None
      end
  end.

(** The entry of one pair of records: none when no field changed. *)
Definition modification_of (pair : Record_ * Record_) : option Modification :=
  let '(cad2_detail, cad1_detail) := pair in
  let changed := changed_fields cad1_detail cad2_detail in
  if dict_bool changed
  then Some {| name := default (Text "Unknown") (cad2_detail !! "Name");
               fields := changed |}
  else None.

(** What the report holds at a tag, from the two collections. *)
Definition additions_at (cad1 cad2 : CADFeatures) (t : string) : option (list Record_) :=
  match cad2 !! t with
  | None => None
  | Some cad2_list =>
      match cad1 !! t with
      | None => Some cad2_list
      | Some cad1_list =>
          if bool_decide (length cad1_list < length cad2_list)
          then Some (drop (length cad1_list) cad2_list)
          else None
      end
  end.

Definition modifications_at (cad1 cad2 : CADFeatures) (t : string)
  : option (list Modification) :=
  match cad2 !! t, cad1 !! t with
  | Some cad2_list, Some cad1_list =>
      match feature_modifications cad2_list cad1_list with
      | [] => None
      | mods => Some mods
      end
  | _, _ => None
  end.

Definition removals_at (cad1 cad2 : CADFeatures) (t : string) : option (list Record_) :=
  match cad1 !! t with
  | None => None
  | Some cad1_list =>
      match cad2 !! t with
      | None => Some cad1_list
      | Some cad2_list =>
          if bool_decide (length cad2_list < length cad1_list)
          then Some (drop (length cad2_list) cad1_list)
          else None
      end
  end.

(** No attribute of the record is a NaN float. *)
Definition record_no_nan (r : Record_) : Prop :=
  map_Forall (λ _ v, is_nan_number v = false) r.

(** No attribute of a record of the collection is a NaN float. *)
Definition no_nan_number (X : CADFeatures) : Prop :=
  map_Forall (λ _ l, Forall record_no_nan l) X.

Global Instance record_no_nan_dec r : Decision (record_no_nan r).
Proof. unfold record_no_nan. apply _. Defined.

Global Instance no_nan_number_dec X : Decision (no_nan_number X).
Proof. unfold no_nan_number. apply _. Defined.

(** No tag of the mapping has an empty list. *)
Definition no_empty_list {A} (m : gmap string (list A)) : Prop :=
  map_Forall (λ _ l, l ≠ []) m.

Global Instance no_empty_list_dec {A} `{EqDecision A} (m : gmap string (list A)) :
  Decision (no_empty_list m).
Proof. unfold no_empty_list. apply _. Defined.




(** The records of the features with tag [T], in the order of the list. *)
Definition records_with_tag (T : string) (l : list (Element * Record_)) : list Record_ :=
  (filter (λ p, tag p.1 = T) l).*2.

(** ** Sample documents and their records *)

Definition leaf (t s : string) : Element := mkElement t (Some s) [].

Definition node (t : string) (cs : list Element) : Element := mkElement t None cs.

Definition blank_root : Element :=
  node "Blank"
    [ node "HOLE" [leaf "Name" "Hole1"; leaf "Diameter" "3"];
      node "SLOT" [leaf "Name" "Slot1"; leaf "Width" " 2.5 "] ].

Definition component_root : Element :=
  node "Component"
    [ node "HOLE" [leaf "Name" "Hole1"; leaf "Diameter" "5"];
      node "HOLE" [leaf "Name" "Hole2"; leaf "Origin" "119.55 69.0222 -32"];
      node "POCKET" [leaf "Name" "Pocket1"] ].

Definition nan_root : Element := node "Part" [ node "A" [leaf "D" "nan"] ].

(** The collection extracted from a document, the objects numbered from
    [n]; empty when the extraction raises. *)
Definition extracted (root : Element) (n : nat) : CADFeatures :=
  match extract_features root n with
  | inr (features, _) => features
  | inl _ => ∅
  end.

Definition blank_features : CADFeatures := extracted blank_root 0.

Definition component_features : CADFeatures := extracted component_root 2.

Definition nan_features : CADFeatures :=
  {[ "A" := [ ({[ "D" := Number {| id_of := 0; value_of := S754_nan |} ]} : Record_) ] ]}.

(** The records of the sample documents. *)
Definition hole1_blank : Record_ :=
  {[ "Name" := Text "Hole1";
     "Diameter" := Number {| id_of := 0; value_of := S754_finite false 6755399441055744 (-51) |} ]}.

Definition slot1 : Record_ :=
  {[ "Name" := Text "Slot1";
     "Width" := Number {| id_of := 1; value_of := S754_finite false 5629499534213120 (-51) |} ]}.

Definition hole1_component : Record_ :=
  {[ "Name" := Text "Hole1";
     "Diameter" := Number {| id_of := 2; value_of := S754_finite false 5629499534213120 (-50) |} ]}.

Definition hole2 : Record_ :=
  {[ "Name" := Text "Hole2";
     "Origin" := Point {| id_of := 3; value_of := S754_finite false 8412583366439731 (-46) |}
                       {| id_of := 4; value_of := S754_finite false 4857005534379560 (-46) |}
                       {| id_of := 5; value_of := S754_finite true 4503599627370496 (-47) |} ]}.

Definition pocket1 : Record_ := {[ "Name" := Text "Pocket1" ]}.

(** A document with an attribute node without text. *)
Definition no_text_root : Element :=
  node "Part"
    [ node "HOLE" [leaf "Name" "Hole1"; leaf "Diameter" "3"];
      node "SLOT" [leaf "Name" "Slot1"; mkElement "Width" None []] ].

(** A document with the features A, B, A. *)
Definition aba_root : Element :=
  node "Part"
    [ node "HOLE" [leaf "Name" "Hole1"; leaf "Diameter" "3"];
      node "POCKET" [leaf "Name" "Pocket1"];
      node "HOLE" [leaf "Name" "Hole2"; leaf "Diameter" "5"] ].

(** A feature whose attribute [Diameter] occurs twice. *)
Definition twice_child : Element :=
  node "HOLE" [leaf "Diameter" "3"; leaf "Name" "Hole1"; leaf "Diameter" "1 2 3"].

(** An operation with a named attribute, a leaf and a tool. *)
Definition drilling : Element :=
  node "Drilling"
    [ leaf "FeedRate" " 0.1 ";
      leaf "Depth" "3";
      node "Drill" [leaf "Name" " D5 "; leaf "Diameter" "5"] ].

(** A feature whose origin moves from one document to the other. *)
Definition origin_blank_root : Element :=
  node "Blank" [ node "HOLE" [leaf "Origin" "0 0 0"] ].

Definition origin_component_root : Element :=
  node "Component" [ node "HOLE" [leaf "Origin" "0 0 1"] ].

Definition origin_blank : Record_ :=
  {[ "Origin" := Point {| id_of := 0; value_of := S754_zero false |}
                       {| id_of := 1; value_of := S754_zero false |}
                       {| id_of := 2; value_of := S754_zero false |} ]}.

Definition origin_component : Record_ :=
  {[ "Origin" := Point {| id_of := 3; value_of := S754_zero false |}
                       {| id_of := 4; value_of := S754_zero false |}
                       {| id_of := 5; value_of := S754_finite false 4503599627370496 (-52) |} ]}.

(** A record whose point has a NaN coordinate, as extracted from
    [nan_point_root]. *)
Definition nan_point_record : Record_ :=
  {[ "Origin" := Point {| id_of := 0; value_of := S754_nan |}
                       {| id_of := 1; value_of := S754_zero false |}
                       {| id_of := 2; value_of := S754_zero false |} ]}.

(** ** Further definitions the statements use *)

(** The float objects of a value. *)
Definition value_floats (v : Value) : list PyFloat :=
  match v with
  | Number f => [f]
  | Point x y z => [x; y; z]
  | Text _ => []
  end.

(** The float objects of the record have their identity in [[lo, hi)]. *)
Definition record_ids_within (lo hi : nat) (r : Record_) : Prop :=
  ∀ key v f, r !! key = Some v → f ∈ value_floats v → lo ≤ id_of f < hi.

(** The float objects of the collection have their identity in
    [[lo, hi)]. *)
Definition ids_within (lo hi : nat) (features : CADFeatures) : Prop :=
  ∀ T l r, features !! T = Some l → r ∈ l → record_ids_within lo hi r.

(** The number of records of a collection, all tags together. *)
Definition record_count {A} (m : gmap string (list A)) : nat :=
  sum_list_with (λ kv, length kv.2) (map_to_list m).

(** What reading a child of an operation raises, if it does: a leaf
    without text, a named attribute whose text is no number, a tool with
    a child without text. *)
Definition cam_attribute_error (attribute : Element) : option exn :=
  if bool_decide (tag attribute ∈ TOOLSTYPELIST)
  then if bool_decide (Forall (λ tool_attr, is_Some (text tool_attr)) (children attribute))
       then None else Some AttributeError
  else match text attribute with
       | None => Some AttributeError
       | Some t =>
           if bool_decide (tag attribute ∈ NUMERIC_ATTRIBUTES)
           then match Py.string_to_double (Py.strip t) with
                | Some _ => None
                | None => Some ValueError
                end
           else None
       end.

(** The first error among the children of the operations, in the order
    of the document. *)
Definition cam_first_error (root : Element) : option exn :=
  head (omap cam_attribute_error (children root ≫= children)).

(** The details of the operations with tag [T], in the order of the
    list. *)
Definition details_with_tag {A} (T : string) (l : list (Element * A)) : list A :=
  (filter (λ p, tag p.1 = T) l).*2.

(** The type of a value of an operation goes by its key: a tool under a
    tool type, a float under a named attribute, a str elsewhere. *)
Definition cam_value_shape (key : string) (v : CamValue) : Prop :=
  match v with
  | Tool _ => key ∈ TOOLSTYPELIST
  | Leaf (Number _) => (key ∉ TOOLSTYPELIST) ∧ (key ∈ NUMERIC_ATTRIBUTES)
  | Leaf (Text _) => (key ∉ TOOLSTYPELIST) ∧ (key ∉ NUMERIC_ATTRIBUTES)
  | Leaf (Point _ _ _) => False
  end.

(** ** cam_parser_xml.py: required_tools; cam_gen_xml.py: find_tool_for_operation *)

(** The exceptions of a subscript: no such key, or no subscript at all. *)
Inductive lookup_exn := KeyError | TypeError.

(** An insertion-ordered dict, as the list of its items: [od_get k d] is
    [d.get(k)], [od_set k v d] is [d[k] = v], which keeps the place of a
    key that is there and puts a new key last. *)
Fixpoint od_get {V} (k : string) (d : list (string * V)) : option V :=
  match d with
  | [] => None
  | (k', v) :: d' => if decide (k' = k) then Some v else od_get k d'
  end.

Fixpoint od_set {V} (k : string) (v : V) (d : list (string * V)) : list (string * V) :=
  match d with
  | [] => [(k, v)]
  | (k', v') :: d' =>
      if decide (k' = k) then (k, v) :: d' else (k', v') :: od_set k v d'
  end.

(** [for x in l: acc = body(acc, x)], where [body] may raise. *)
Fixpoint try_fold {E A B} (body : B → A → E + B) (l : list A) (acc : B) : E + B :=
  match l with
  | [] => inr acc
  | x :: l' =>
      match body acc x with
      | inl e => inl e
      | inr acc' => try_fold body l' acc'
      end
  end.

(** [{"ToolDetails": .., "OperationsList": ..}] *)
Record ToolUsage := {
  ToolDetails : gmap string string;
  OperationsList : list string
}.

(** [ToolsDict]: tool type, then tool name, both in insertion order. *)
Abbreviation ToolsDict := (list (string * list (string * ToolUsage))).

(** The value the [defaultdict] makes up for a new key. *)
Definition new_usage : ToolUsage := {| ToolDetails := ∅; OperationsList := [] |}.

(** [tool_map[tool_name]] on the [defaultdict]: the value, and the dict
    with the key it may have got. *)
Definition defaultdict_get (tool_name : string) (tool_map : list (string * ToolUsage))
  : ToolUsage * list (string * ToolUsage) :=
  match od_get tool_name tool_map with
  | Some usage => (usage, tool_map)
  | None => (new_usage, od_set tool_name new_usage tool_map)
  end.

(** Lines 102-106: the body of the innermost loop. *)
Definition use_tool (operation_type : string) (op : gmap string CamValue)
    (tools_usage : ToolsDict) (tool_type : string) : lookup_exn + ToolsDict :=
  match op !! tool_type with
  | None => inr tools_usage
  | Some (Leaf (Number _)) | Some (Leaf (Text _)) => inl TypeError
  | Some (Leaf (Point _ _ _)) => inl KeyError
  | Some (Tool tool_info) =>
      match tool_info !! "Name" with
      | None => inl KeyError
      | Some tool_name =>
          match od_get tool_type tools_usage with
          | None => inl KeyError
          | Some tool_map =>
              let '(usage, tool_map) := defaultdict_get tool_name tool_map in
              let tool_map :=
                od_set tool_name {| ToolDetails := tool_info;
                                    OperationsList := OperationsList usage |} tool_map in
              let '(usage, tool_map) := defaultdict_get tool_name tool_map in
              let tool_map :=
                od_set tool_name
                  {| ToolDetails := ToolDetails usage;
                     OperationsList := OperationsList usage ++ [operation_type] |}
                  tool_map in
              inr (od_set tool_type tool_map tools_usage)
          end
      end
  end.

(** [required_tools]; [operations] is [operations.items()], in insertion
    order. *)
Definition required_tools (operations : list (string * list (gmap string CamValue)))
  : lookup_exn + ToolsDict :=
  let tools_usage := (λ tool_type, (tool_type, [])) <$> TOOLSTYPELIST in
  try_fold (λ tools_usage '(operation_type, op_list),
      try_fold (λ tools_usage op,
          try_fold (use_tool operation_type op) TOOLSTYPELIST tools_usage)
        op_list tools_usage)
    operations tools_usage.

(** [find_tool_for_operation]: the first value of [tools[tool_type]];
    [None] is the empty dict returned when there is none. *)
Definition find_tool_for_operation (tool_type : string) (tools : ToolsDict)
  : option ToolUsage :=
  head (default [] (od_get tool_type tools)).*2.

(** Two operations that use the same drill, and one that uses another. *)
Definition sample_operations : list (string * list (gmap string CamValue)) :=
  [ ("Drilling",
      [ {[ "Depth" := Leaf (Text "3");
           "Drill" := Tool {[ "Name" := "D5"; "Diameter" := "5" ]} ]};
        {[ "Drill" := Tool {[ "Name" := "D8"; "Diameter" := "8" ]} ]} ]);
    ("Boring",
      [ {[ "Drill" := Tool {[ "Name" := "D5"; "Diameter" := "5.0" ]};
           "SpotDrill" := Tool {[ "Name" := "S1" ]} ]} ]) ].

(** The turns of the innermost loop, in order: operation type, operation
    and tool type. *)
Definition tool_events (operations : list (string * list (gmap string CamValue)))
  : list (string * gmap string CamValue * string) :=
  operations ≫= λ '(operation_type, op_list),
    op_list ≫= λ op, (λ tool_type, (operation_type, op, tool_type)) <$> TOOLSTYPELIST.

(** What a turn raises, if it does: the value under the tool type is no
    dict, or a dict without [Name]. *)
Definition tool_event_error (ev : string * gmap string CamValue * string)
  : option lookup_exn :=
  match ev.1.2 !! ev.2 with
  | None => None
  | Some (Leaf (Number _)) | Some (Leaf (Text _)) => Some TypeError
  | Some (Leaf (Point _ _ _)) => Some KeyError
  | Some (Tool tool_info) =>
      match tool_info !! "Name" with
      | None => Some KeyError
      | Some _ => None
      end
  end.

(** The uses of the tools of a type: operation type and tool, for every
    operation that has a tool of that type, in order. *)
Definition tool_uses (tool_type : string)
    (operations : list (string * list (gmap string CamValue)))
  : list (string * gmap string string) :=
  operations ≫= λ '(operation_type, op_list),
    op_list ≫= λ op,
      match op !! tool_type with
      | Some (Tool tool_info) => [(operation_type, tool_info)]
      | _ => []
      end.

(** The uses of the tool named [tool_name]. *)
Definition uses_named (tool_name : string) (uses : list (string * gmap string string))
  : list (string * gmap string string) :=
  filter (λ u, u.2 !! "Name" = Some tool_name) uses.

(** The entry of a tool from its uses: the details of the last use, the
    operation types of all of them; none without a use. *)
Definition usage_of_uses (uses : list (string * gmap string string)) : option ToolUsage :=
  match last uses with
  | None => None
  | Some (_, tool_info) =>
      Some {| ToolDetails := tool_info; OperationsList := uses.*1 |}
  end.

(** The uses of a tool type among some turns of the innermost loop. *)
Definition event_uses (tool_type : string)
    (evs : list (string * gmap string CamValue * string))
  : list (string * gmap string string) :=
  omap (λ ev,
      if decide (ev.2 = tool_type)
      then match ev.1.2 !! tool_type with
           | Some (Tool tool_info) => Some (ev.1.1, tool_info)
           | _ => None
           end
      else None) evs.

(** The names of the tools of some uses, in order. *)
Definition use_names (uses : list (string * gmap string string)) : list string :=
  omap (λ u, u.2 !! "Name") uses.

(** What the loops have built after some turns. *)
Definition tools_built (evs : list (string * gmap string CamValue * string))
    (tools : ToolsDict) : Prop :=
  tools.*1 = TOOLSTYPELIST ∧
  ∀ tool_type, tool_type ∈ TOOLSTYPELIST →
    ∃ tool_map,
      od_get tool_type tools = Some tool_map ∧
      (∀ tool_name,
         od_get tool_name tool_map =
         usage_of_uses (uses_named tool_name (event_uses tool_type evs))) ∧
      head tool_map.*1 = head (use_names (event_uses tool_type evs)) ∧
      Forall (λ u, is_Some (u.2 !! "Name")) (event_uses tool_type evs).

(** ** The rows of features_dict_to_dataframe and of read_geometry_to_operation_mapping *)

(** Lines 118-122 of [features_dict_to_dataframe]: the rows given to
    [pandas.DataFrame]; [features] is [features.items()], in insertion
    order.  A row is [{'FeatureType': feature_type, **instance}]. *)
Definition dataframe_rows (features : list (string * list Record_)) : list Record_ :=
  foldl (λ rows '(feature_type, instances),
      foldl (λ rows instance,
          rows ++ [instance ∪ {[ "FeatureType" := Text feature_type ]}])
        rows instances)
    [] features.

(** Lines 149-154 of [read_geometry_to_operation_mapping]: the dict built
    from the rows of the file, each row the pair of its [Geometry] and
    [Operation] fields. *)
Definition geometry_to_operations (rows : list (string * string))
  : list (string * list string) :=
  foldl (λ mapping '(geometry, operation),
      let mapping :=
        match od_get geometry mapping with
        | None => od_set geometry [] mapping
        | Some _ => mapping
        end in
      od_set geometry (default [] (od_get geometry mapping) ++ [operation]) mapping)
    [] rows.

(** ** Texts of one token *)

(** Where a reader of one token stands: before it, in it, after it. *)
Inductive scan_state := Leading | Inside | Trailing.

(** The string is white space, one run of other characters, white space;
    read from the state [st]. *)
Fixpoint one_token_from (st : scan_state) (s : string) : bool :=
  match s with
  | EmptyString => match st with Leading => false | _ => true end
  | String c s' =>
      if Py.isspace c
      then match st with
           | Leading => one_token_from Leading s'
           | _ => one_token_from Trailing s'
           end
      else match st with
           | Trailing => false
           | _ => one_token_from Inside s'
           end
  end.

(** No character of the string is white space. *)
Fixpoint no_space (s : string) : bool :=
  match s with
  | EmptyString => true
  | String c s' => negb (Py.isspace c) && no_space s'
  end.

(** ** Extraction from a later state of the allocator *)

(** The float object [k] identities further. *)
Definition shift_float (k : nat) (f : PyFloat) : PyFloat :=
  {| id_of := id_of f + k; value_of := value_of f |}.

Definition shift_value (k : nat) (v : Value) : Value :=
  match v with
  | Number f => Number (shift_float k f)
  | Point x y z => Point (shift_float k x) (shift_float k y) (shift_float k z)
  | Text s => Text s
  end.

Definition shift_features (k : nat) (features : CADFeatures) : CADFeatures :=
  (λ l : list Record_, (λ r : Record_, shift_value k <$> r) <$> l) <$> features.

(** No float of the collection, attribute or coordinate, is NaN. *)
Definition no_nan_float (features : CADFeatures) : Prop :=
  map_Forall (λ _ l,
    Forall (map_Forall (λ _ v,
      Forall (λ f, Py.isnan (value_of f) = false) (value_floats v))) l) features.

Global Instance no_nan_float_dec features : Decision (no_nan_float features).
Proof. unfold no_nan_float. apply _. Defined.

(** A document with a NaN coordinate. *)
Definition nan_point_root : Element :=
  node "Part" [ node "A" [leaf "Origin" "nan 0 0"] ].

(** Lines 120-125 of [extract_geometry_to_operation_mapping_from_dict]:
    the rows given to the writer, each the pair of its [Geometry] and
    [Operation] fields; [operations] is [operations.items()], in
    insertion order. *)
Definition geometry_mappings (operations : list (string * list (gmap string CamValue)))
  : list (CamValue * string) :=
  foldl (λ mappings '(operation_name, op_list),
      foldl (λ mappings (op : gmap string CamValue),
          match op !! "Geometry" with
          | Some geometry => mappings ++ [(geometry, operation_name)]
          | None => mappings
          end)
        mappings op_list)
    [] operations.

(** The types of the operations whose [Geometry] is the str [g], one per
    operation, in order. *)
Definition operations_of_geometry (g : string)
    (operations : list (string * list (gmap string CamValue))) : list string :=
  operations ≫= λ '(operation_name, op_list),
    op_list ≫= λ op : gmap string CamValue,
      match op !! "Geometry" with
      | Some (Leaf (Text s)) => if decide (s = g) then [operation_name] else []
      | _ => []
      end.

(** The rows whose geometry is a str, with that str. *)
Definition str_rows (operations : list (string * list (gmap string CamValue)))
  : list (string * string) :=
  operations ≫= λ '(operation_name, op_list),
    op_list ≫= λ op : gmap string CamValue,
      match op !! "Geometry" with
      | Some (Leaf (Text s)) => [(s, operation_name)]
      | _ => []
      end.

(** A machining document with two operations on one geometry. *)
Definition facing_root : Element :=
  node "Machine"
    [ node "Facing" [leaf "Geometry" " FACE1 "];
      node "Drilling" [leaf "Depth" "3"];
      node "Finishing" [leaf "Geometry" "FACE1"; leaf "Step" "0.5"] ].

(** * Properties *)

(** ** The monad *)

Section monad.
Context {A B : Type}.

Lemma bind_inr (m : M A) (f : A → M B) n a n' :
  m n = inr (a, n') → (m ≫= f) n = f a n'.
Proof. intros H. unfold mbind, M_bind. by rewrite H. Qed.

Lemma bind_inl (m : M A) (f : A → M B) n e :
  m n = inl e → (m ≫= f) n = inl e.
Proof. intros H. unfold mbind, M_bind. by rewrite H. Qed.

Lemma bind_inv_inr (m : M A) (f : A → M B) n b n' :
  (m ≫= f) n = inr (b, n') → ∃ a k, m n = inr (a, k) ∧ f a k = inr (b, n').
Proof.
  unfold mbind, M_bind. destruct (m n) as [e|[a k]]; [done|]. eauto.
Qed.

Lemma bind_inv_inl (m : M A) (f : A → M B) n e :
  (m ≫= f) n = inl e →
  m n = inl e ∨ ∃ a k, m n = inr (a, k) ∧ f a k = inl e.
Proof.
  unfold mbind, M_bind. destruct (m n) as [e'|[a k]]; [left; congruence|].
  right. eauto.
Qed.
End monad.

Lemma ret_eq {A} (a : A) n : (mret a : M A) n = inr (a, n).
Proof. done. Qed.

(** ** Classification *)

Lemma float_eq_some s v n :
  Py.string_to_double s = Some v →
  float s n = inr ({| id_of := n; value_of := v |}, S n).
Proof. intros H. unfold float. by rewrite H. Qed.

Lemma float_eq_none s n :
  Py.string_to_double s = None → float s n = inl ValueError.
Proof. intros H. unfold float. by rewrite H. Qed.

(** [is_number] never raises and leaves no object behind. *)
Lemma is_number_eq s n :
  is_number s n = inr (bool_decide (is_Some (Py.string_to_double s)), n).
Proof.
  unfold is_number, float. destruct (Py.string_to_double s) as [v|].
  - by rewrite bool_decide_eq_true_2 by eauto.
  - by rewrite bool_decide_eq_false_2 by (by intros [? ?]).
Qed.

Lemma all_is_number_eq l n :
  all is_number l n =
  inr (bool_decide (Forall (λ p, is_Some (Py.string_to_double p)) l), n).
Proof.
  induction l as [|p l IH].
  - by rewrite bool_decide_eq_true_2 by constructor.
  - cbn [all]. erewrite bind_inr by apply is_number_eq.
    destruct (decide (is_Some (Py.string_to_double p))) as [Hp|Hp].
    + rewrite (bool_decide_eq_true_2 _ Hp), IH. do 2 f_equal.
      apply bool_decide_ext. split; [by constructor|by inversion 1].
    + rewrite (bool_decide_eq_false_2 _ Hp), ret_eq.
      rewrite bool_decide_eq_false_2; [done|]. by inversion 1.
Qed.

Lemma is_point_eq t n :
  is_point t n =
  inr (bool_decide (length (Py.split t) = 3 ∧
                    Forall (λ p, is_Some (Py.string_to_double p)) (Py.split t)), n).
Proof.
  unfold is_point. case_bool_decide as Hlen.
  - rewrite all_is_number_eq. f_equal. f_equal. apply bool_decide_ext. tauto.
  - rewrite ret_eq, bool_decide_eq_false_2; [done|]. tauto.
Qed.

Lemma parse_point_eq t a b c x y z n :
  Py.split t = [a; b; c] →
  Py.string_to_double a = Some x →
  Py.string_to_double b = Some y →
  Py.string_to_double c = Some z →
  parse_point t n =
  inr (Point {| id_of := n; value_of := x |}
             {| id_of := S n; value_of := y |}
             {| id_of := S (S n); value_of := z |}, S (S (S n))).
Proof.
  intros Hs Ha Hb Hc. unfold parse_point. rewrite Hs.
  unfold getitem; simpl.
  erewrite bind_inr by apply ret_eq.
  erewrite bind_inr by (by apply float_eq_some).
  erewrite bind_inr by apply ret_eq.
  erewrite bind_inr by (by apply float_eq_some).
  erewrite bind_inr by apply ret_eq.
  erewrite bind_inr by (by apply float_eq_some).
  done.
Qed.

(** The three outcomes of [classify], in the order the code tries them. *)
Lemma classify_cases t n :
  match Py.string_to_double t with
  | Some v => classify t n = inr (Number {| id_of := n; value_of := v |}, S n)
  | None =>
      match Py.split t with
      | [a; b; c] =>
          match Py.string_to_double a, Py.string_to_double b, Py.string_to_double c with
          | Some x, Some y, Some z =>
              classify t n =
              inr (Point {| id_of := n; value_of := x |}
                         {| id_of := S n; value_of := y |}
                         {| id_of := S (S n); value_of := z |}, S (S (S n)))
          | _, _, _ => classify t n = inr (Text t, n)
          end
      | _ => classify t n = inr (Text t, n)
      end
  end.
Proof.
  unfold classify.
  erewrite bind_inr by apply is_number_eq.
  destruct (Py.string_to_double t) as [v|] eqn:Ht.
  - rewrite bool_decide_eq_true_2 by eauto.
    erewrite bind_inr by (by apply float_eq_some). done.
  - rewrite bool_decide_eq_false_2 by (by intros [? ?]).
    erewrite bind_inr by apply is_point_eq.
    destruct (decide (length (Py.split t) = 3 ∧
        Forall (λ p, is_Some (Py.string_to_double p)) (Py.split t))) as [[Hl HF]|Hn].
    + rewrite bool_decide_eq_true_2 by done.
      destruct (Py.split t) as [|a [|b [|c [|d l]]]] eqn:Hs; try done.
      apply Forall_cons in HF as [[x Ha] HF].
      apply Forall_cons in HF as [[y Hb] HF].
      apply Forall_cons in HF as [[z Hc] _].
      rewrite Ha, Hb, Hc. eapply parse_point_eq; eauto.
    + rewrite bool_decide_eq_false_2 by done. rewrite ret_eq.
      destruct (Py.split t) as [|a [|b [|c [|d l]]]]; try done.
      destruct (Py.string_to_double a) eqn:Ha; [|done].
      destruct (Py.string_to_double b) eqn:Hb; [|done].
      destruct (Py.string_to_double c) eqn:Hc; [|done].
      destruct Hn. split; [done|]. repeat constructor; eauto.
Qed.
(** C1. The value stored for the text of an attribute, once stripped, is
    defined for every string and no exception is raised; it is a [Number]
    when the stripped text parses as a float, otherwise a [Point] of the
    three floats in token order when the text splits into exactly three
    tokens that all parse, otherwise the [Text] of the stripped string. *)
Theorem classify_total_in_order (s : string) (n : nat) :
  let t := Py.strip s in
  ∃ v n', classify t n = inr (v, n') ∧
    match Py.string_to_double t with
    | Some f => v = Number {| id_of := n; value_of := f |}
    | None =>
        match Py.split t with
        | [a; b; c] =>
            match Py.string_to_double a, Py.string_to_double b, Py.string_to_double c with
            | Some x, Some y, Some z =>
                v = Point {| id_of := n; value_of := x |}
                          {| id_of := S n; value_of := y |}
                          {| id_of := S (S n); value_of := z |}
            | _, _, _ => v = Text t
            end
        | _ => v = Text t
        end
    end.
Proof.
  intros t. pose proof (classify_cases t n) as H.
  destruct (Py.string_to_double t) as [f|]; [eauto|].
  destruct (Py.split t) as [|a [|b [|c [|d l]]]]; eauto.
  destruct (Py.string_to_double a), (Py.string_to_double b),
    (Py.string_to_double c); eauto.
Qed.

(** The examples of the specification. *)
Example classify_point :
  classify (Py.strip "119.55 69.0222 -32") 0 =
  inr (Point {| id_of := 0; value_of := S754_finite false 8412583366439731 (-46) |}
             {| id_of := 1; value_of := S754_finite false 4857005534379560 (-46) |}
             {| id_of := 2; value_of := S754_finite true 4503599627370496 (-47) |}, 3).
Proof. vm_compute. reflexivity. Qed.

Example classify_number :
  classify (Py.strip "3") 0 =
  inr (Number {| id_of := 0; value_of := S754_finite false 6755399441055744 (-51) |}, 1).
Proof. vm_compute. reflexivity. Qed.

Example classify_text :
  classify (Py.strip "OUTER_DIAMETER(1of1){1of1}") 0 =
  inr (Text "OUTER_DIAMETER(1of1){1of1}", 0).
Proof. vm_compute. reflexivity. Qed.

Example classify_empty : classify (Py.strip "   ") 7 = inr (Text "", 7).
Proof. vm_compute. reflexivity. Qed.

(** ** Equality of values *)

Lemma float_eq_refl x : Py.isnan x = false → Py.float_eq x x = true.
Proof.
  unfold Py.float_eq, SFeqb. destruct x as [s|s| |s m e]; simpl; try done.
  - by destruct s.
  - intros _. destruct s; rewrite Z.compare_refl, Pos.compare_cont_refl; done.
Qed.

Lemma float_eq_nan x y : Py.isnan x = true → Py.float_eq x y = false.
Proof. by destruct x. Qed.

Lemma item_eq_refl a : item_eq a a = true.
Proof. unfold item_eq. by rewrite bool_decide_eq_true_2. Qed.

Lemma ne_refl v : ne v v = is_nan_number v.
Proof.
  destruct v as [f|x y z|s]; simpl.
  - destruct (Py.isnan (value_of f)) eqn:Hf.
    + by rewrite float_eq_nan.
    + by rewrite float_eq_refl.
  - by rewrite !item_eq_refl.
  - by rewrite String.eqb_refl.
Qed.

(** ** The fields that changed *)

Lemma changed_fields_lookup (cad1_detail cad2_detail : Record_) (key : string) :
  changed_fields cad1_detail cad2_detail !! key = field_change cad1_detail cad2_detail key.
Proof.
  unfold changed_fields, field_change.
  apply (map_fold_weak_ind (λ (changed : gmap string FieldChange) (m : Record_),
    changed !! key =
    match m !! key with
    | None => None
    | Some value =>
        match cad1_detail !! key with
        | None => Some {| old := Text "N/A"; new := value |}
        | Some v => if ne v value then Some {| old := v; new := value |} else None
        end
    end)).
  { by rewrite !lookup_empty. }
  intros k value m changed Hk IH.
  destruct (decide (k = key)) as [->|Hne].
  - rewrite lookup_insert_eq. rewrite Hk in IH.
    destruct (cad1_detail !! key) as [v|]; simpl.
    + destruct (ne v value); [by rewrite lookup_insert_eq|done].
    + by rewrite lookup_insert_eq.
  - rewrite (lookup_insert_ne m) by done. rewrite <- IH.
    destruct (match cad1_detail !! k with None => true | Some v => ne v value end);
      [by rewrite lookup_insert_ne|done].
Qed.

Lemma dict_bool_false {A} (d : gmap string A) : dict_bool d = false ↔ d = ∅.
Proof.
  unfold dict_bool. rewrite negb_false_iff, Nat.eqb_eq. apply map_size_empty_iff.
Qed.


(** ** The modifications of a tag *)

Lemma feature_modifications_omap (cad2_list cad1_list : list Record_) :
  feature_modifications cad2_list cad1_list =
  omap modification_of (zip cad2_list cad1_list).
Proof.
  unfold feature_modifications.
  cut (∀ (l : list (Record_ * Record_)) acc,
    foldl (λ acc '(cad2_detail, cad1_detail),
      let changed := changed_fields cad1_detail cad2_detail in
      if dict_bool changed
      then acc ++ [ {| name := default (Text "Unknown") (cad2_detail !! "Name");
                       fields := changed |} ]
      else acc) acc l = acc ++ omap modification_of l).
  { intros H. by rewrite H. }
  induction l as [|[r2 r1] l IH]; intros acc; simpl.
  - by rewrite app_nil_r.
  - rewrite IH. destruct (dict_bool (changed_fields r1 r2)); simpl; [|done].
    by rewrite <- app_assoc.
Qed.

(** ** The report, key by key *)

(** The first loop: the invariant is stated for the part [seen] of [cad2]
    already visited. *)
Lemma first_loop (cad1 cad2 : CADFeatures) :
  let m := map_fold (additions_step cad1 cad2) no_differences cad2 in
  removals m = ∅ ∧
  ∀ t, additions m !! t = additions_at cad1 cad2 t ∧
       modifications m !! t = modifications_at cad1 cad2 t.
Proof.
  cut (let m := map_fold (additions_step cad1 cad2) no_differences cad2 in
    removals m = ∅ ∧
    ∀ t, additions m !! t =
           match cad2 !! t with
           | None => None
           | Some details =>
               match cad1 !! t with
               | None => Some details
               | Some cad1_list =>
                   let cad2_list := default [] (cad2 !! t) in
                   if bool_decide (length cad1_list < length cad2_list)
                   then Some (drop (length cad1_list) cad2_list)
                   else None
               end
           end ∧
         modifications m !! t =
           match cad2 !! t with
           | None => None
           | Some _ =>
               match cad1 !! t with
               | None => None
               | Some cad1_list =>
                   match feature_modifications (default [] (cad2 !! t)) cad1_list with
                   | [] => None
                   | mods => Some mods
                   end
               end
           end).
  { intros [Hr H]. split; [done|]. intros t. destruct (H t) as [Ha Hm].
    unfold additions_at, modifications_at. rewrite Ha, Hm.
    by destruct (cad2 !! t), (cad1 !! t). }
  cbv zeta.
  apply (map_fold_weak_ind (λ (m : FeatureDifferences) (seen : CADFeatures),
    removals m = ∅ ∧
    ∀ t, additions m !! t =
           match seen !! t with
           | None => None
           | Some details =>
               match cad1 !! t with
               | None => Some details
               | Some cad1_list =>
                   let cad2_list := default [] (cad2 !! t) in
                   if bool_decide (length cad1_list < length cad2_list)
                   then Some (drop (length cad1_list) cad2_list)
                   else None
               end
           end ∧
         modifications m !! t =
           match seen !! t with
           | None => None
           | Some _ =>
               match cad1 !! t with
               | None => None
               | Some cad1_list =>
                   match feature_modifications (default [] (cad2 !! t)) cad1_list with
                   | [] => None
                   | mods => Some mods
                   end
               end
           end)).
  { split; [done|]. intros t. by rewrite !lookup_empty. }
  intros feature details seen m Hfresh [Hr IH]. unfold additions_step.
  destruct (cad1 !! feature) as [cad1_list|] eqn:H1; simpl.
  - set (cad2_list := default [] (cad2 !! feature)).
    set (mods := feature_modifications cad2_list cad1_list).
    assert (Hmods : ∀ t,
      modifications (match mods with
                     | [] => m
                     | _ => {| additions := additions m;
                               modifications := <[feature := mods]> (modifications m);
                               removals := removals m |}
                     end) !! t =
      if decide (feature = t)
      then match mods with [] => None | _ => Some mods end
      else modifications m !! t).
    { intros t. destruct (decide (feature = t)) as [<-|Hne].
      - destruct mods; simpl; [|by rewrite lookup_insert_eq].
        destruct (IH feature) as [_ ->]. by rewrite Hfresh.
      - destruct mods; simpl; [done|]. by rewrite lookup_insert_ne. }
    assert (Hadds : additions (match mods with
                     | [] => m
                     | _ => {| additions := additions m;
                               modifications := <[feature := mods]> (modifications m);
                               removals := removals m |}
                     end) = additions m) by by destruct mods.
    assert (Hrems : removals (match mods with
                     | [] => m
                     | _ => {| additions := additions m;
                               modifications := <[feature := mods]> (modifications m);
                               removals := removals m |}
                     end) = ∅) by by destruct mods.
    case_bool_decide as Hlen; simpl.
    + split; [done|]. intros t. rewrite Hmods, Hadds.
      destruct (decide (feature = t)) as [<-|Hne].
      * rewrite !lookup_insert_eq, H1. fold cad2_list. fold mods.
        rewrite (bool_decide_eq_true_2 _ Hlen). split; [done|by destruct mods].
      * rewrite !lookup_insert_ne by done. apply IH.
    + split; [done|]. intros t. rewrite Hmods, Hadds.
      destruct (decide (feature = t)) as [<-|Hne].
      * rewrite !lookup_insert_eq, H1. fold cad2_list. fold mods.
        rewrite (bool_decide_eq_false_2 _ Hlen).
        destruct (IH feature) as [-> _]. rewrite Hfresh.
        split; [done|by destruct mods].
      * rewrite !lookup_insert_ne by done. apply IH.
  - split; [done|]. intros t.
    destruct (decide (feature = t)) as [<-|Hne].
    + rewrite !lookup_insert_eq, H1. split; [done|].
      destruct (IH feature) as [_ ->]. by rewrite Hfresh.
    + rewrite !lookup_insert_ne by done. apply IH.
Qed.

(** The second loop adds removals only. *)
Lemma second_loop (cad1 cad2 : CADFeatures) (m0 : FeatureDifferences) :
  removals m0 = ∅ →
  let m := map_fold (removals_step cad1 cad2) m0 cad1 in
  additions m = additions m0 ∧ modifications m = modifications m0 ∧
  ∀ t, removals m !! t = removals_at cad1 cad2 t.
Proof.
  intros H0.
  cut (let m := map_fold (removals_step cad1 cad2) m0 cad1 in
    additions m = additions m0 ∧ modifications m = modifications m0 ∧
    ∀ t, removals m !! t =
      match cad1 !! t with
      | None => None
      | Some details =>
          match cad2 !! t with
          | None => Some details
          | Some cad2_list =>
              let cad1_list := default [] (cad1 !! t) in
              if bool_decide (length cad2_list < length cad1_list)
              then Some (drop (length cad2_list) cad1_list)
              else None
          end
      end).
  { intros (Ha & Hm & H). split; [done|]. split; [done|]. intros t.
    unfold removals_at. rewrite H. by destruct (cad1 !! t), (cad2 !! t). }
  cbv zeta.
  apply (map_fold_weak_ind (λ (m : FeatureDifferences) (seen : CADFeatures),
    additions m = additions m0 ∧ modifications m = modifications m0 ∧
    ∀ t, removals m !! t =
      match seen !! t with
      | None => None
      | Some details =>
          match cad2 !! t with
          | None => Some details
          | Some cad2_list =>
              let cad1_list := default [] (cad1 !! t) in
              if bool_decide (length cad2_list < length cad1_list)
              then Some (drop (length cad2_list) cad1_list)
              else None
          end
      end)).
  { split; [done|]. split; [done|]. intros t. by rewrite H0, !lookup_empty. }
  intros feature details seen m Hfresh (Ha & Hm & IH). unfold removals_step.
  destruct (cad2 !! feature) as [cad2_list|] eqn:H2; simpl.
  - destruct (decide (length cad2_list < length (default [] (cad1 !! feature))))
      as [Hlen|Hlen].
    + rewrite (bool_decide_eq_true_2 _ Hlen); simpl.
      split; [done|]. split; [done|]. intros t.
      destruct (decide (feature = t)) as [<-|Hne].
      * rewrite !lookup_insert_eq, H2. by rewrite (bool_decide_eq_true_2 _ Hlen).
      * rewrite !lookup_insert_ne by done. apply IH.
    + rewrite (bool_decide_eq_false_2 _ Hlen).
      split; [done|]. split; [done|]. intros t.
      destruct (decide (feature = t)) as [<-|Hne].
      * rewrite !lookup_insert_eq, H2. rewrite (bool_decide_eq_false_2 _ Hlen).
        by rewrite IH, Hfresh.
      * rewrite !lookup_insert_ne by done. apply IH.
  - split; [done|]. split; [done|]. intros t.
    destruct (decide (feature = t)) as [<-|Hne].
    + by rewrite !lookup_insert_eq, H2.
    + rewrite !lookup_insert_ne by done. apply IH.
Qed.

Lemma additions_lookup (cad1 cad2 : CADFeatures) (t : string) :
  additions (compare_features cad1 cad2) !! t = additions_at cad1 cad2 t.
Proof.
  unfold compare_features.
  destruct (first_loop cad1 cad2) as [Hr H].
  destruct (second_loop cad1 cad2 _ Hr) as (-> & _ & _). apply H.
Qed.

Lemma modifications_lookup (cad1 cad2 : CADFeatures) (t : string) :
  modifications (compare_features cad1 cad2) !! t = modifications_at cad1 cad2 t.
Proof.
  unfold compare_features.
  destruct (first_loop cad1 cad2) as [Hr H].
  destruct (second_loop cad1 cad2 _ Hr) as (_ & -> & _). apply H.
Qed.

Lemma removals_lookup (cad1 cad2 : CADFeatures) (t : string) :
  removals (compare_features cad1 cad2) !! t = removals_at cad1 cad2 t.
Proof.
  unfold compare_features.
  destruct (first_loop cad1 cad2) as [Hr H].
  destruct (second_loop cad1 cad2 _ Hr) as (_ & _ & H'). apply H'.
Qed.

(** ** Additions and removals *)

(** C6. A tag of the target alone is added with its whole list and appears
    in no other part of the report; a tag of the baseline alone is removed
    with its whole list; for a tag of both, the records of the longer list
    beyond the length of the shorter one are additions when the target is
    the longer, removals when the baseline is. *)
Theorem whole_tag_and_surplus (cad1 cad2 : CADFeatures) :
  let d := compare_features cad1 cad2 in
  (∀ T cad2_list, cad1 !! T = None → cad2 !! T = Some cad2_list →
     additions d !! T = Some cad2_list ∧
     modifications d !! T = None ∧ removals d !! T = None) ∧
  (∀ T cad1_list, cad1 !! T = Some cad1_list → cad2 !! T = None →
     removals d !! T = Some cad1_list) ∧
  (∀ T cad1_list cad2_list,
     cad1 !! T = Some cad1_list → cad2 !! T = Some cad2_list →
     (length cad1_list < length cad2_list →
        additions d !! T = Some (drop (length cad1_list) cad2_list)) ∧
     (length cad2_list < length cad1_list →
        removals d !! T = Some (drop (length cad2_list) cad1_list))).
Proof.
  cbv zeta. split; [|split].
  - intros T l2 H1 H2.
    rewrite additions_lookup, modifications_lookup, removals_lookup.
    unfold additions_at, modifications_at, removals_at. by rewrite H1, H2.
  - intros T l1 H1 H2. rewrite removals_lookup. unfold removals_at.
    by rewrite H1, H2.
  - intros T l1 l2 H1 H2. split; intros Hlen.
    + rewrite additions_lookup. unfold additions_at. rewrite H1, H2.
      by rewrite bool_decide_eq_true_2.
    + rewrite removals_lookup. unfold removals_at. rewrite H1, H2.
      by rewrite bool_decide_eq_true_2.
Qed.

(** C7. When the target has one record more than the baseline under a
    tag, that record is the addition of the tag, and it is the removal of
    the tag once baseline and target are swapped.  The records before it
    need not agree. *)
Theorem surplus_record_moves (cad1 cad2 : CADFeatures) (T : string)
    (cad1_list cad2_list : list Record_) (r : Record_) :
  cad1 !! T = Some cad1_list →
  cad2 !! T = Some (cad2_list ++ [r]) →
  length cad1_list = length cad2_list →
  additions (compare_features cad1 cad2) !! T = Some [r] ∧
  removals (compare_features cad2 cad1) !! T = Some [r].
Proof.
  intros H1 H2 Hlen.
  rewrite additions_lookup, removals_lookup. unfold additions_at, removals_at.
  rewrite H1, H2, length_app. simpl.
  rewrite bool_decide_eq_true_2 by lia.
  by rewrite Hlen, drop_app_length.
Qed.

(** ** Comparing a collection with itself *)

Lemma changed_fields_self (r : Record_) :
  changed_fields r r = ∅ ↔ record_no_nan r.
Proof.
  split.
  - intros H key v Hv.
    assert (Hk : changed_fields r r !! key = None) by by rewrite H.
    rewrite changed_fields_lookup in Hk. unfold field_change in Hk.
    rewrite Hv, ne_refl in Hk. by destruct (is_nan_number v).
  - intros H. apply map_eq. intros key.
    rewrite changed_fields_lookup, lookup_empty. unfold field_change.
    destruct (r !! key) as [v|] eqn:Hv; [|done].
    by rewrite ne_refl, (H key v Hv).
Qed.

Lemma modification_of_self (r : Record_) :
  modification_of (r, r) = None ↔ record_no_nan r.
Proof.
  rewrite <- changed_fields_self, <- dict_bool_false. unfold modification_of.
  by destruct (dict_bool (changed_fields r r)).
Qed.

Lemma feature_modifications_self (l : list Record_) :
  feature_modifications l l = [] ↔ Forall record_no_nan l.
Proof.
  rewrite feature_modifications_omap.
  induction l as [|r l IH].
  - split; [constructor|done].
  - change (omap modification_of (zip (r :: l) (r :: l))) with
      (match modification_of (r, r) with
       | Some y => y :: omap modification_of (zip l l)
       | None => omap modification_of (zip l l)
       end).
    destruct (modification_of (r, r)) eqn:Hm.
    + split; [done|]. intros HF. apply Forall_cons in HF as [Hr _].
      apply modification_of_self in Hr. congruence.
    + rewrite IH. split; intros HF.
      * constructor; [by apply modification_of_self|done].
      * by apply Forall_cons in HF as [_ ?].
Qed.

Lemma compare_features_self (X : CADFeatures) :
  compare_features X X = no_differences ↔ no_nan_number X.
Proof.
  split.
  - intros H T l HT.
    assert (Hm : modifications (compare_features X X) !! T = None) by by rewrite H.
    rewrite modifications_lookup in Hm. unfold modifications_at in Hm.
    rewrite HT in Hm.
    destruct (feature_modifications l l) eqn:Hfm; [|done].
    by apply feature_modifications_self in Hfm.
  - intros H.
    assert (Ha : additions (compare_features X X) = ∅).
    { apply map_eq. intros T. rewrite additions_lookup, lookup_empty.
      unfold additions_at. destruct (X !! T); [|done].
      by rewrite bool_decide_eq_false_2 by lia. }
    assert (Hm : modifications (compare_features X X) = ∅).
    { apply map_eq. intros T. rewrite modifications_lookup, lookup_empty.
      unfold modifications_at. destruct (X !! T) as [l|] eqn:HT; [|done].
      assert (Hfm : feature_modifications l l = []).
      { apply feature_modifications_self. by apply (H T l). }
      by rewrite Hfm. }
    assert (Hr : removals (compare_features X X) = ∅).
    { apply map_eq. intros T. rewrite removals_lookup, lookup_empty.
      unfold removals_at. destruct (X !! T); [|done].
      by rewrite bool_decide_eq_false_2 by lia. }
    destruct (compare_features X X). simpl in *. by subst.
Qed.

(** ** The sample documents; a collection compared with itself *)

Example blank_extracted :
  extract_features blank_root 0 =
  inr ({[ "HOLE" := [hole1_blank]; "SLOT" := [slot1] ]}, 2).
Proof. vm_compute. reflexivity. Qed.

Example component_extracted :
  extract_features component_root 2 =
  inr ({[ "HOLE" := [hole1_component; hole2]; "POCKET" := [pocket1] ]}, 6).
Proof. vm_compute. reflexivity. Qed.

Example nan_extracted : extract_features nan_root 0 = inr (nan_features, 1).
Proof. vm_compute. reflexivity. Qed.

(** The report of the two sample documents: the example of a field
    change, a new record under a known tag, a new tag, a tag that is gone. *)
Example sample_report :
  compare_features blank_features component_features =
  {| additions := {[ "HOLE" := [hole2]; "POCKET" := [pocket1] ]};
     modifications :=
       {[ "HOLE" :=
            [ {| name := Text "Hole1";
                 fields :=
                   {[ "Diameter" :=
                        {| old := Number {| id_of := 0;
                                            value_of := S754_finite false 6755399441055744 (-51) |};
                           new := Number {| id_of := 2;
                                            value_of := S754_finite false 5629499534213120 (-50) |} |} ]} |} ] ]};
     removals := {[ "SLOT" := [slot1] ]} |}.
Proof. vm_compute. reflexivity. Qed.

(** C2, as stated, fails: a record with a NaN float differs from itself,
    since [nan != nan]; the collection is the one extracted from
    [<Part><A><D>nan</D></A></Part>]. *)
Lemma diff_identity_fails_on_nan :
  compare_features nan_features nan_features =
  {| additions := ∅;
     modifications :=
       {[ "A" :=
            [ {| name := Text "Unknown";
                 fields :=
                   {[ "D" := {| old := Number {| id_of := 0; value_of := S754_nan |};
                                new := Number {| id_of := 0; value_of := S754_nan |} |} ]} |} ] ]};
     removals := ∅ |} ∧
  compare_features nan_features nan_features ≠ no_differences.
Proof. split; [vm_compute; reflexivity|vm_compute; discriminate]. Qed.

(** C2, amended.  A collection in which no attribute is a NaN float has
    no difference with itself: no additions, no modifications and no
    removals, for every tag. *)
Theorem diff_identity (X : CADFeatures) :
  no_nan_number X → compare_features X X = no_differences.
Proof. apply compare_features_self. Qed.

Lemma diff_identity_witness :
  no_nan_number component_features ∧
  compare_features component_features component_features = no_differences.
Proof.
  assert (H : no_nan_number component_features) by compute_done.
  split; [exact H|]. apply (diff_identity component_features H).
Defined.

(** A point with a NaN coordinate is one dict compared with itself: its
    entries are the same objects, and it does not differ from itself. *)
Example nan_point_equals_itself :
  let p := Point {| id_of := 0; value_of := S754_nan |}
                 {| id_of := 1; value_of := S754_zero false |}
                 {| id_of := 2; value_of := S754_zero false |} in
  let X : CADFeatures := {[ "A" := [ ({[ "Origin" := p ]} : Record_) ] ]} in
  compare_features X X = no_differences.
Proof. vm_compute. reflexivity. Qed.

Lemma whole_tag_and_surplus_witness :
  let d := compare_features blank_features component_features in
  let d' := compare_features component_features blank_features in
  (additions d !! "POCKET" = Some [pocket1] ∧
   modifications d !! "POCKET" = None ∧ removals d !! "POCKET" = None) ∧
  removals d !! "SLOT" = Some [slot1] ∧
  additions d !! "HOLE" = Some [hole2] ∧
  removals d' !! "HOLE" = Some [hole2].
Proof.
  cbv zeta.
  destruct (whole_tag_and_surplus blank_features component_features)
    as (Hadd & Hrem & Hboth).
  destruct (whole_tag_and_surplus component_features blank_features)
    as (_ & _ & Hboth').
  split; [|split; [|split]].
  - apply (Hadd "POCKET" [pocket1]); vm_compute; reflexivity.
  - apply (Hrem "SLOT" [slot1]); vm_compute; reflexivity.
  - apply (Hboth "HOLE" [hole1_blank] [hole1_component; hole2]);
      [vm_compute; reflexivity..|simpl; lia].
  - apply (Hboth' "HOLE" [hole1_component; hole2] [hole1_blank]);
      [vm_compute; reflexivity..|simpl; lia].
Defined.

Lemma surplus_record_moves_witness :
  additions (compare_features blank_features component_features) !! "HOLE" = Some [hole2] ∧
  removals (compare_features component_features blank_features) !! "HOLE" = Some [hole2].
Proof.
  apply (surplus_record_moves blank_features component_features "HOLE"
           [hole1_blank] [hole1_component] hole2);
    vm_compute; reflexivity.
Defined.

(** ** Empty lists in the report *)

Lemma feature_modifications_at_nonempty (cad1 cad2 : CADFeatures) (T : string) :
  modifications_at cad1 cad2 T ≠ Some [].
Proof.
  unfold modifications_at. destruct (cad2 !! T), (cad1 !! T); try done.
  by destruct (feature_modifications _ _).
Qed.

Lemma additions_at_empty (cad1 cad2 : CADFeatures) (T : string) :
  additions_at cad1 cad2 T = Some [] → cad1 !! T = None ∧ cad2 !! T = Some [].
Proof.
  unfold additions_at. destruct (cad2 !! T) as [l2|]; [|done].
  destruct (cad1 !! T) as [l1|]; [|by intros [= ->]].
  case_bool_decide as Hlen; [|done]. intros [= Hd].
  apply (f_equal length) in Hd. rewrite length_drop in Hd. simpl in Hd. lia.
Qed.

Lemma removals_at_empty (cad1 cad2 : CADFeatures) (T : string) :
  removals_at cad1 cad2 T = Some [] → cad2 !! T = None ∧ cad1 !! T = Some [].
Proof.
  unfold removals_at. destruct (cad1 !! T) as [l1|]; [|done].
  destruct (cad2 !! T) as [l2|]; [|by intros [= ->]].
  case_bool_decide as Hlen; [|done]. intros [= Hd].
  apply (f_equal length) in Hd. rewrite length_drop in Hd. simpl in Hd. lia.
Qed.

(** C10, as stated, fails: a tag of the target alone is added with its
    list as it is, and a tag of the baseline alone removed with its list
    as it is, also when that list is empty. *)
Lemma empty_list_reported :
  additions (compare_features ∅ {[ "A" := [] ]}) !! "A" = Some [] ∧
  removals (compare_features {[ "A" := [] ]} ∅) !! "A" = Some [].
Proof. split; vm_compute; reflexivity. Qed.

(** C10, amended.  [modifications] has no empty list.  [additions] has an
    empty list at a tag only when the baseline lacks the tag and the
    target has the empty list there; [removals] only when the target
    lacks the tag and the baseline has the empty list there.  So the
    report of two collections without empty lists has none. *)
Theorem report_lists_nonempty (cad1 cad2 : CADFeatures) :
  let d := compare_features cad1 cad2 in
  no_empty_list (modifications d) ∧
  (∀ T, additions d !! T = Some [] → cad1 !! T = None ∧ cad2 !! T = Some []) ∧
  (∀ T, removals d !! T = Some [] → cad2 !! T = None ∧ cad1 !! T = Some []) ∧
  (no_empty_list cad1 → no_empty_list cad2 →
     no_empty_list (additions d) ∧ no_empty_list (removals d)).
Proof.
  cbv zeta.
  assert (Ha : ∀ T, additions (compare_features cad1 cad2) !! T = Some [] →
                    cad1 !! T = None ∧ cad2 !! T = Some []).
  { intros T. rewrite additions_lookup. apply additions_at_empty. }
  assert (Hr : ∀ T, removals (compare_features cad1 cad2) !! T = Some [] →
                    cad2 !! T = None ∧ cad1 !! T = Some []).
  { intros T. rewrite removals_lookup. apply removals_at_empty. }
  split; [|split; [done|split; [done|]]].
  - intros T l Hl ->. rewrite modifications_lookup in Hl.
    by apply feature_modifications_at_nonempty in Hl.
  - intros H1 H2. split; intros T l Hl ->.
    + destruct (Ha T Hl) as [_ HT]. by apply (H2 T []).
    + destruct (Hr T Hl) as [_ HT]. by apply (H1 T []).
Qed.

Lemma report_lists_nonempty_witness :
  no_empty_list (additions (compare_features blank_features component_features)) ∧
  no_empty_list (removals (compare_features blank_features component_features)).
Proof.
  apply (report_lists_nonempty blank_features component_features); compute_done.
Defined.

(** ** Field changes *)




Lemma modification_of_None (cad1_detail cad2_detail : Record_) :
  modification_of (cad2_detail, cad1_detail) = None ↔
  changed_fields cad1_detail cad2_detail = ∅.
Proof.
  rewrite <- dict_bool_false. unfold modification_of.
  by destruct (dict_bool (changed_fields cad1_detail cad2_detail)).
Qed.


Example origin_extracted :
  extract_features origin_blank_root 0 = inr ({[ "HOLE" := [origin_blank] ]}, 3) ∧
  extract_features origin_component_root 3 = inr ({[ "HOLE" := [origin_component] ]}, 6).
Proof. split; vm_compute; reflexivity. Qed.

Example nan_point_extracted :
  extract_features nan_point_root 0 = inr ({[ "A" := [nan_point_record] ]}, 3).
Proof. vm_compute. reflexivity. Qed.





(** ** Extraction: failure *)

Lemma classify_returns t n : ∃ v n', classify t n = inr (v, n').
Proof.
  pose proof (classify_cases t n) as H.
  destruct (Py.string_to_double t); [eauto|].
  destruct (Py.split t) as [|a [|b [|c [|d l]]]]; eauto.
  destruct (Py.string_to_double a), (Py.string_to_double b),
    (Py.string_to_double c); eauto.
Qed.

Lemma attribute_value_text (sub_child : Element) (t : string) n :
  text sub_child = Some t →
  attribute_value sub_child n = classify (Py.strip t) n.
Proof.
  intros Ht. unfold attribute_value, text_strip. rewrite Ht.
  by erewrite bind_inr by apply ret_eq.
Qed.

Lemma attribute_value_no_text (sub_child : Element) n :
  text sub_child = None → attribute_value sub_child n = inl AttributeError.
Proof.
  intros Ht. unfold attribute_value, text_strip. rewrite Ht.
  by apply bind_inl.
Qed.

(** The inner loop, from any record built so far. *)
Lemma details_loop_fails (l : list Element) (details : Record_) n :
  Exists (λ sub_child, text sub_child = None) l →
  for_each (λ details sub_child,
      v ← attribute_value sub_child;
      mret (<[tag sub_child := v]> details)) l details n = inl AttributeError.
Proof.
  revert details n. induction l as [|e l IH]; intros details n Hex.
  - by apply Exists_nil in Hex.
  - cbn [for_each]. destruct (text e) as [t|] eqn:Ht.
    + destruct (classify_returns (Py.strip t) n) as (v & n1 & Hv).
      erewrite bind_inr; last first.
      { erewrite bind_inr by (by rewrite (attribute_value_text e t)). apply ret_eq. }
      apply IH. apply Exists_cons in Hex as [Hex|Hex]; [congruence|done].
    + apply bind_inl. apply bind_inl. by apply attribute_value_no_text.
Qed.

Lemma details_loop_returns (l : list Element) (details : Record_) n :
  Forall (λ sub_child, is_Some (text sub_child)) l →
  ∃ details' n',
    for_each (λ details sub_child,
      v ← attribute_value sub_child;
      mret (<[tag sub_child := v]> details)) l details n = inr (details', n').
Proof.
  revert details n. induction l as [|e l IH]; intros details n Hall.
  - eauto.
  - apply Forall_cons in Hall as [[t Ht] Hall]. cbn [for_each].
    destruct (classify_returns (Py.strip t) n) as (v & n1 & Hv).
    erewrite bind_inr; last first.
    { erewrite bind_inr by (by rewrite (attribute_value_text e t)). apply ret_eq. }
    by apply IH.
Qed.

Lemma feature_details_result (child : Element) n :
  (Exists (λ sub_child, text sub_child = None) (children child) ∧
   feature_details child n = inl AttributeError) ∨
  (Forall (λ sub_child, is_Some (text sub_child)) (children child) ∧
   ∃ details n', feature_details child n = inr (details, n')).
Proof.
  destruct (decide (Exists (λ sub_child, text sub_child = None) (children child)))
    as [Hex|Hno].
  - left. split; [done|]. by apply details_loop_fails.
  - right. apply not_Exists_Forall in Hno; [|apply _].
    assert (Hall : Forall (λ sub_child, is_Some (text sub_child)) (children child)).
    { eapply Forall_impl; [exact Hno|]. intros e He. simpl in He.
      destruct (text e); [eauto|done]. }
    split; [done|]. by apply details_loop_returns.
Qed.

(** The outer loop, from any collection built so far. *)
Lemma features_loop_fails (l : list Element) (features : CADFeatures) n :
  Exists (λ child, Exists (λ sub_child, text sub_child = None) (children child)) l →
  for_each (λ features child,
      details ← feature_details child;
      mret (append_feature features (tag child) details)) l features n
  = inl AttributeError.
Proof.
  revert features n. induction l as [|child l IH]; intros features n Hex.
  - by apply Exists_nil in Hex.
  - cbn [for_each].
    destruct (feature_details_result child n) as [[_ Hf]|[Hall (d & n1 & Hd)]].
    + apply bind_inl. by apply bind_inl.
    + erewrite bind_inr; last first.
      { erewrite bind_inr by exact Hd. apply ret_eq. }
      apply IH. apply Exists_cons in Hex as [Hex|Hex]; [|done].
      apply Exists_exists in Hex as (e & He & Hnone).
      rewrite Forall_forall in Hall. destruct (Hall e He) as [t Ht]. congruence.
Qed.

Lemma features_loop_returns (l : list Element) (features : CADFeatures) n :
  Forall (λ child, Forall (λ sub_child, is_Some (text sub_child)) (children child)) l →
  ∃ features' n',
    for_each (λ features child,
      details ← feature_details child;
      mret (append_feature features (tag child) details)) l features n
    = inr (features', n').
Proof.
  revert features n. induction l as [|child l IH]; intros features n Hall.
  - eauto.
  - apply Forall_cons in Hall as [Hc Hall]. cbn [for_each].
    destruct (details_loop_returns (children child) ∅ n Hc) as (d & n1 & Hd).
    erewrite bind_inr; last first.
    { erewrite bind_inr by exact Hd. apply ret_eq. }
    by apply IH.
Qed.

(** Extraction returns a collection when every attribute node has a
    text. *)
Lemma extract_features_returns (root : Element) n :
  Forall (λ child, Forall (λ sub_child, is_Some (text sub_child)) (children child))
    (children root) →
  ∃ features n', extract_features root n = inr (features, n').
Proof. apply features_loop_returns. Qed.

(** C3. When an attribute node of a feature node has no text, extraction
    raises: the result is the exception ([AttributeError], what Python
    raises for [None.strip()]) and no collection, whatever was read
    before. *)
Theorem extraction_fails_without_text (root : Element) :
  Exists (λ child, Exists (λ sub_child, text sub_child = None) (children child))
    (children root) →
  ∀ n, extract_features root n = inl AttributeError.
Proof. intros Hex n. by apply features_loop_fails. Qed.

Lemma extraction_fails_without_text_witness :
  extract_features no_text_root 0 = inl AttributeError.
Proof. apply (extraction_fails_without_text no_text_root). compute_done. Defined.

(** ** Extraction: the records of a tag *)

(** A loop that computes one result per element and folds it in is the
    list of the results, folded in afterwards. *)
Lemma for_each_zip {A B C} (f : A → M B) (g : C → A → B → C) (l : list A) acc n :
  for_each (λ acc x, y ← f x; mret (g acc x y)) l acc n =
  (ys ← map_M f l; mret (foldl (λ acc p, g acc p.1 p.2) acc (zip l ys))) n.
Proof.
  revert acc n. induction l as [|x l IH]; intros acc n; [done|].
  cbn [for_each map_M]. destruct (f x n) as [e|[y n1]] eqn:Hf.
  - rewrite (bind_inl _ _ n e); [|by apply bind_inl].
    symmetry. apply bind_inl. by apply bind_inl.
  - erewrite (bind_inr _ _ n); last first.
    { erewrite bind_inr by exact Hf. apply ret_eq. }
    rewrite IH. destruct (map_M f l n1) as [e|[ys n2]] eqn:Hl.
    + rewrite (bind_inl _ _ n1 e) by done.
      symmetry. apply bind_inl. erewrite bind_inr by exact Hf. by apply bind_inl.
    + erewrite (bind_inr _ _ n1) by exact Hl.
      symmetry. erewrite (bind_inr _ _ n); last first.
      { erewrite bind_inr by exact Hf. erewrite bind_inr by exact Hl. apply ret_eq. }
      done.
Qed.

Lemma map_M_Forall2 {A B} (f : A → M B) (l : list A) n ys n' :
  map_M f l n = inr (ys, n') →
  Forall2 (λ x y, ∃ m m', f x m = inr (y, m')) l ys.
Proof.
  revert n ys. induction l as [|x l IH]; intros n ys H.
  - injection H as <- _. constructor.
  - cbn [map_M] in H. apply bind_inv_inr in H as (y & n1 & Hy & H).
    apply bind_inv_inr in H as (ys' & n2 & Hys & H).
    injection H as <- <-. constructor; [by exists n, n1|by eapply IH].
Qed.

Lemma append_feature_lookup (features : CADFeatures) (t T : string) (details : Record_) :
  append_feature features t details !! T =
  if decide (t = T) then Some (default [] (features !! t) ++ [details])
  else features !! T.
Proof.
  unfold append_feature. destruct (decide (t = T)) as [<-|Hne].
  - rewrite lookup_alter_eq. destruct (features !! t) as [l|] eqn:Ht.
    + by rewrite Ht.
    + by rewrite lookup_insert_eq.
  - rewrite lookup_alter_ne by done.
    destruct (features !! t); [done|]. by rewrite lookup_insert_ne.
Qed.

Lemma append_features_lookup (l : list (Element * Record_)) (features : CADFeatures) T :
  foldl (λ acc p, append_feature acc (tag p.1) p.2) features l !! T =
  match features !! T, records_with_tag T l with
  | None, [] => None
  | o, rs => Some (default [] o ++ rs)
  end.
Proof.
  revert features. induction l as [|[e r] l IH]; intros features.
  - unfold records_with_tag. simpl. destruct (features !! T); [|done].
    by rewrite app_nil_r.
  - cbn [foldl]. rewrite IH, append_feature_lookup. unfold records_with_tag.
    rewrite filter_cons. simpl. destruct (decide (tag e = T)) as [<-|Hne].
    + rewrite fmap_cons. simpl.
      destruct (features !! tag e); simpl; [by rewrite <- app_assoc|done].
    + done.
Qed.

Lemma extract_features_grouped (root : Element) n features n' :
  extract_features root n = inr (features, n') →
  ∃ records,
    map_M feature_details (children root) n = inr (records, n') ∧
    ∀ T, features !! T =
         match records_with_tag T (zip (children root) records) with
         | [] => None
         | rs => Some rs
         end.
Proof.
  unfold extract_features.
  rewrite (for_each_zip feature_details (λ acc x y, append_feature acc (tag x) y)).
  intros H. apply bind_inv_inr in H as (records & n1 & Hr & H).
  injection H as <- <-. exists records. split; [done|]. intros T.
  rewrite append_features_lookup, lookup_empty.
  by destruct (records_with_tag T _).
Qed.

(** C8. Extraction of a document whose attribute nodes all have a text
    returns a collection in which the list of a tag is the list of the
    records of the features with that tag, in the order of the document;
    with three features tagged A, B, A, the list of A is the record of
    the first followed by the record of the third. *)
Theorem records_in_document_order (root : Element) n :
  Forall (λ child, Forall (λ sub_child, is_Some (text sub_child)) (children child))
    (children root) →
  ∃ features n' records,
    extract_features root n = inr (features, n') ∧
    map_M feature_details (children root) n = inr (records, n') ∧
    (∀ T, features !! T =
          match records_with_tag T (zip (children root) records) with
          | [] => None
          | rs => Some rs
          end) ∧
    (∀ a1 b a2,
       children root = [a1; b; a2] → tag a2 = tag a1 → tag b ≠ tag a1 →
       ∃ r1 r2 r3 n1 n2,
         feature_details a1 n = inr (r1, n1) ∧
         feature_details b n1 = inr (r2, n2) ∧
         feature_details a2 n2 = inr (r3, n') ∧
         features !! tag a1 = Some [r1; r3]).
Proof.
  intros Hall. destruct (extract_features_returns root n Hall) as (features & n' & H).
  destruct (extract_features_grouped root n features n' H)
    as (records & Hr & Hlookup).
  exists features, n', records. split; [done|]. split; [done|]. split; [done|].
  intros a1 b a2 Hc Ha Hb. rewrite Hc in Hr. cbn [map_M] in Hr.
  apply bind_inv_inr in Hr as (r1 & n1 & H1 & Hr).
  apply bind_inv_inr in Hr as (rs1 & k1 & Hr & Hret1).
  apply bind_inv_inr in Hr as (r2 & n2 & H2 & Hr).
  apply bind_inv_inr in Hr as (rs2 & k2 & Hr & Hret2).
  apply bind_inv_inr in Hr as (r3 & n3 & H3 & Hr).
  apply bind_inv_inr in Hr as (rs3 & k3 & Hr & Hret3).
  injection Hr as <- <-. injection Hret3 as <- <-.
  injection Hret2 as <- <-. injection Hret1 as <- <-.
  exists r1, r2, r3, n1, n2. split; [done|]. split; [done|]. split; [done|].
  rewrite Hlookup, Hc. unfold records_with_tag. simpl.
  rewrite !filter_cons, filter_nil. simpl.
  rewrite decide_True by done. rewrite decide_False by done.
  by rewrite decide_True by done.
Qed.

Lemma records_in_document_order_witness :
  ∃ features n' records,
    extract_features aba_root 0 = inr (features, n') ∧
    map_M feature_details (children aba_root) 0 = inr (records, n') ∧
    (∀ T, features !! T =
          match records_with_tag T (zip (children aba_root) records) with
          | [] => None
          | rs => Some rs
          end) ∧
    (∀ a1 b a2,
       children aba_root = [a1; b; a2] → tag a2 = tag a1 → tag b ≠ tag a1 →
       ∃ r1 r2 r3 n1 n2,
         feature_details a1 0 = inr (r1, n1) ∧
         feature_details b n1 = inr (r2, n2) ∧
         feature_details a2 n2 = inr (r3, n') ∧
         features !! tag a1 = Some [r1; r3]).
Proof. apply (records_in_document_order aba_root 0). compute_done. Defined.

Example aba_extracted :
  extracted aba_root 0 !! "HOLE" =
  Some [ ({[ "Name" := Text "Hole1";
             "Diameter" := Number {| id_of := 0;
                                     value_of := S754_finite false 6755399441055744 (-51) |} ]} : Record_);
         {[ "Name" := Text "Hole2";
            "Diameter" := Number {| id_of := 1;
                                    value_of := S754_finite false 5629499534213120 (-50) |} ]} ].
Proof. vm_compute. reflexivity. Qed.

(** ** Extraction: an attribute that occurs more than once *)

Lemma for_each_snoc {A B} (body : B → A → M B) (l : list A) (x : A) acc n :
  for_each body (l ++ [x]) acc n = (for_each body l acc ≫= λ acc', body acc' x) n.
Proof.
  revert acc n. induction l as [|y l IH]; intros acc n; simpl.
  - unfold mbind, M_bind. simpl. by destruct (body acc x n) as [?|[? ?]].
  - unfold mbind, M_bind. destruct (body acc y n) as [e|[acc1 n1]]; [done|].
    apply IH.
Qed.

Lemma filter_key_absent {A} (l : list (string * A)) key :
  key ∉ l.*1 → filter (λ kv, kv.1 = key) l = [].
Proof.
  induction l as [|[k w] l IH]; intros Hk; [done|].
  rewrite fmap_cons in Hk. apply not_elem_of_cons in Hk as [Hne Hk].
  rewrite filter_cons_False by (simpl in *; congruence). by apply IH.
Qed.

(** A list of pairs without two pairs of the same key has one pair at a
    key it holds. *)
Lemma filter_key_NoDup {A} (l : list (string * A)) key v :
  NoDup l.*1 → (key, v) ∈ l → filter (λ kv, kv.1 = key) l = [(key, v)].
Proof.
  induction l as [|[k w] l IH]; intros Hnd Hin.
  - by apply elem_of_nil in Hin.
  - rewrite fmap_cons in Hnd. apply NoDup_cons in Hnd as [Hk Hnd]. simpl in Hk.
    apply elem_of_cons in Hin as [[= <- <-]|Hin].
    + rewrite filter_cons_True by done. f_equal. by apply filter_key_absent.
    + rewrite filter_cons_False; [by apply IH|]. simpl. intros ->.
      apply Hk. by apply (list_elem_of_fmap_2 fst) in Hin.
Qed.

(** A dict has one entry at a key it holds. *)
Lemma dict_one_entry {A} (d : gmap string A) key v :
  d !! key = Some v → filter (λ kv, kv.1 = key) (map_to_list d) = [(key, v)].
Proof.
  intros H. apply filter_key_NoDup.
  - apply NoDup_fst_map_to_list.
  - by apply elem_of_map_to_list.
Qed.

(** The inner loop stores, at the tag of an attribute, the value of its
    last occurrence. *)
Lemma details_loop_last (l : list Element) n (details : Record_) n' key :
  for_each (λ (details : Record_) sub_child,
      v ← attribute_value sub_child;
      mret (<[tag sub_child := v]> details)) l ∅ n = inr (details, n') →
  key ∈ tag <$> l →
  ∃ i sub_child t v m m',
    l !! i = Some sub_child ∧ tag sub_child = key ∧
    (∀ j e, i < j → l !! j = Some e → tag e ≠ key) ∧
    text sub_child = Some t ∧
    classify (Py.strip t) m = inr (v, m') ∧
    details !! key = Some v.
Proof.
  revert n details n'. induction l as [|x l IH] using rev_ind;
    intros n details n' Hloop Hkey.
  - by apply elem_of_nil in Hkey.
  - rewrite for_each_snoc in Hloop.
    apply bind_inv_inr in Hloop as (d0 & n0 & Hl & Hx).
    apply bind_inv_inr in Hx as (v & n1 & Hv & Hret).
    injection Hret as <- <-.
    destruct (decide (tag x = key)) as [Heq|Hne].
    + destruct (text x) as [t|] eqn:Ht;
        [|by rewrite attribute_value_no_text in Hv].
      rewrite (attribute_value_text x t) in Hv by done.
      exists (length l), x, t, v, n0, n1.
      split; [by rewrite lookup_app_r, Nat.sub_diag by lia|].
      split; [done|]. split.
      { intros j e Hj He. apply lookup_lt_Some in He.
        rewrite length_app in He. simpl in He. lia. }
      split; [done|]. split; [done|].
      by rewrite <- Heq, lookup_insert_eq.
    + rewrite fmap_app in Hkey. apply elem_of_app in Hkey as [Hkey|Hkey];
        [|apply list_elem_of_singleton in Hkey; congruence].
      destruct (IH n d0 n0 Hl Hkey)
        as (i & e & t & w & m & m' & Hi & Htag & Hlast & Ht & Hw & Hd).
      exists i, e, t, w, m, m'.
      split; [by apply lookup_app_l_Some|]. split; [done|]. split.
      { intros j e' Hj He'.
        destruct (decide (j < length l)) as [Hlt|Hge].
        - rewrite lookup_app_l in He' by done. by apply (Hlast j).
        - rewrite lookup_app_r in He' by lia.
          destruct (j - length l) as [|k]; simpl in He'; [|done].
          by injection He' as <-. }
      split; [done|]. split; [done|].
      by rewrite lookup_insert_ne.
Qed.

(** C9. For a feature node whose children all have a text, the record is
    returned, and when the attribute tag [key] occurs among the children,
    once or more, the record has exactly one entry at [key], whose value
    is what classification returned for the stripped text of the last
    child with that tag. *)
Theorem last_occurrence_wins (child : Element) n key :
  Forall (λ sub_child, is_Some (text sub_child)) (children child) →
  key ∈ tag <$> children child →
  ∃ details n' i sub_child t v m m',
    feature_details child n = inr (details, n') ∧
    children child !! i = Some sub_child ∧ tag sub_child = key ∧
    (∀ j e, i < j → children child !! j = Some e → tag e ≠ key) ∧
    text sub_child = Some t ∧
    classify (Py.strip t) m = inr (v, m') ∧
    details !! key = Some v ∧
    filter (λ kv, kv.1 = key) (map_to_list details) = [(key, v)].
Proof.
  intros Hall Hkey.
  destruct (details_loop_returns (children child) ∅ n Hall) as (details & n' & Hd).
  destruct (details_loop_last (children child) n details n' key Hd Hkey)
    as (i & e & t & v & m & m' & Hi & Htag & Hlast & Ht & Hv & Hlookup).
  exists details, n', i, e, t, v, m, m'. repeat (split; [done|]).
  by apply dict_one_entry.
Qed.

Lemma last_occurrence_wins_witness :
  ∃ details n' i sub_child t v m m',
    feature_details twice_child 0 = inr (details, n') ∧
    children twice_child !! i = Some sub_child ∧ tag sub_child = "Diameter" ∧
    (∀ j e, i < j → children twice_child !! j = Some e → tag e ≠ "Diameter") ∧
    text sub_child = Some t ∧
    classify (Py.strip t) m = inr (v, m') ∧
    details !! "Diameter" = Some v ∧
    filter (λ kv, kv.1 = "Diameter") (map_to_list details) = [("Diameter", v)].
Proof. apply (last_occurrence_wins twice_child 0 "Diameter"); compute_done. Defined.

(** The record of the sample: the point of the last [Diameter], not the
    number of the first. *)
Example twice_extracted :
  feature_details twice_child 0 =
  inr ({[ "Name" := Text "Hole1";
          "Diameter" :=
            Point {| id_of := 1; value_of := S754_finite false 4503599627370496 (-52) |}
                  {| id_of := 2; value_of := S754_finite false 4503599627370496 (-51) |}
                  {| id_of := 3; value_of := S754_finite false 6755399441055744 (-51) |} ]}, 4).
Proof. vm_compute. reflexivity. Qed.

(** A collection built by extraction has no empty list. *)
Lemma extract_features_no_empty_list (root : Element) n features n' :
  extract_features root n = inr (features, n') → no_empty_list features.
Proof.
  intros H. destruct (extract_features_grouped root n features n' H)
    as (records & _ & Hlookup).
  intros T l Hl ->. rewrite Hlookup in Hl.
  by destruct (records_with_tag T _).
Qed.

(** ** The extractor of machine operations *)

Lemma cam_leaf_text (attribute : Element) (t : string) n :
  text attribute = Some t →
  cam_leaf attribute n =
  if bool_decide (tag attribute ∈ NUMERIC_ATTRIBUTES)
  then match Py.string_to_double (Py.strip t) with
       | Some v => inr (Number {| id_of := n; value_of := v |}, S n)
       | None => inl ValueError
       end
  else inr (Text (Py.strip t), n).
Proof.
  intros Ht. unfold cam_leaf, text_strip. rewrite Ht.
  erewrite bind_inr by apply ret_eq.
  case_bool_decide; [|done].
  destruct (Py.string_to_double (Py.strip t)) as [v|] eqn:Hv.
  - by erewrite bind_inr by (by apply float_eq_some).
  - apply bind_inl. by apply float_eq_none.
Qed.

(** The loop over the children of a tool stores stripped texts. *)
Lemma tool_info_loop (l : list Element) (tool_info : gmap string string) n :
  Forall (λ tool_attr, is_Some (text tool_attr)) l →
  for_each (λ (tool_info : gmap string string) tool_attr,
      t ← text_strip tool_attr;
      mret (<[tag tool_attr := t]> tool_info)) l tool_info n =
  inr (foldl (λ acc tool_attr,
               <[tag tool_attr := Py.strip (default "" (text tool_attr))]> acc)
             tool_info l, n).
Proof.
  revert tool_info. induction l as [|e l IH]; intros tool_info Hall; [done|].
  apply Forall_cons in Hall as [[t Ht] Hall]. cbn [for_each foldl].
  erewrite bind_inr; last first.
  { unfold text_strip. rewrite Ht. erewrite bind_inr by apply ret_eq. apply ret_eq. }
  rewrite Ht. simpl. by apply IH.
Qed.

(** C4, as stated, fails: outside the named attributes the extractor of
    operations keeps the text of a leaf whatever its shape, where the
    classification of features returns a number or a point; and a named
    attribute whose text is no number raises. *)
Lemma cam_leaf_not_classified :
  (cam_attribute (leaf "Depth" "3") 0 = inr (Leaf (Text "3"), 0) ∧
   attribute_value (leaf "Depth" "3") 0 =
     inr (Number {| id_of := 0; value_of := S754_finite false 6755399441055744 (-51) |}, 1)) ∧
  (cam_attribute (leaf "Vector" "0 0 1") 0 = inr (Leaf (Text "0 0 1"), 0) ∧
   attribute_value (leaf "Vector" "0 0 1") 0 =
     inr (Point {| id_of := 0; value_of := S754_zero false |}
                {| id_of := 1; value_of := S754_zero false |}
                {| id_of := 2; value_of := S754_finite false 4503599627370496 (-52) |}, 3)) ∧
  (cam_attribute (leaf "Step" "fine") 0 = inl ValueError ∧
   attribute_value (leaf "Step" "fine") 0 = inr (Text "fine", 0)).
Proof. repeat split; vm_compute; reflexivity. Qed.

(** C4, amended.  A child of an operation whose tag is no tool type and
    that has a text is a leaf: under one of the names [Step],
    [SurfaceSpeed], [FeedRate], [Stock], [NoseRadius] it is the float of
    the stripped text, and [ValueError] is raised when that text is no
    number; under any other name it is the stripped text, whatever its
    shape.  A child whose tag is a tool type, the children of which all
    have a text, is a tool: the dict of the stripped texts of its
    children. *)
Theorem cam_attribute_cases (attribute : Element) (n : nat) :
  (tag attribute ∉ TOOLSTYPELIST →
   ∀ t, text attribute = Some t →
     (tag attribute ∈ NUMERIC_ATTRIBUTES →
        match Py.string_to_double (Py.strip t) with
        | Some v =>
            cam_attribute attribute n =
            inr (Leaf (Number {| id_of := n; value_of := v |}), S n)
        | None => cam_attribute attribute n = inl ValueError
        end) ∧
     (tag attribute ∉ NUMERIC_ATTRIBUTES →
        cam_attribute attribute n = inr (Leaf (Text (Py.strip t)), n))) ∧
  (tag attribute ∈ TOOLSTYPELIST →
   Forall (λ tool_attr, is_Some (text tool_attr)) (children attribute) →
   cam_attribute attribute n =
   inr (Tool (foldl (λ acc tool_attr,
                      <[tag tool_attr := Py.strip (default "" (text tool_attr))]> acc)
                    ∅ (children attribute)), n)).
Proof.
  split.
  - intros Htool t Ht. unfold cam_attribute.
    rewrite bool_decide_eq_false_2 by done. split; intros Hname.
    + destruct (Py.string_to_double (Py.strip t)) as [v|] eqn:Hv.
      * erewrite bind_inr; [done|]. rewrite (cam_leaf_text attribute t) by done.
        by rewrite bool_decide_eq_true_2, Hv.
      * apply bind_inl. rewrite (cam_leaf_text attribute t) by done.
        by rewrite bool_decide_eq_true_2, Hv.
    + erewrite bind_inr; [done|]. rewrite (cam_leaf_text attribute t) by done.
      by rewrite bool_decide_eq_false_2.
  - intros Htool Hall. unfold cam_attribute.
    rewrite bool_decide_eq_true_2 by done.
    erewrite bind_inr; [done|]. by apply tool_info_loop.
Qed.

Lemma cam_attribute_cases_witness :
  cam_attribute (leaf "FeedRate" " 0.1 ") 0 =
    inr (Leaf (Number {| id_of := 0;
                         value_of := S754_finite false 7205759403792794 (-56) |}), 1) ∧
  cam_attribute (leaf "Depth" "3") 1 = inr (Leaf (Text "3"), 1) ∧
  cam_attribute (node "Drill" [leaf "Name" " D5 "; leaf "Diameter" "5"]) 1 =
    inr (Tool {[ "Name" := "D5"; "Diameter" := "5" ]}, 1).
Proof.
  split; [|split].
  - apply (proj1 (proj1 (cam_attribute_cases (leaf "FeedRate" " 0.1 ") 0)
                    ltac:(compute_done) " 0.1 " eq_refl)).
    compute_done.
  - apply (proj2 (proj1 (cam_attribute_cases (leaf "Depth" "3") 1)
                    ltac:(compute_done) "3" eq_refl)).
    compute_done.
  - apply (proj2 (cam_attribute_cases
                    (node "Drill" [leaf "Name" " D5 "; leaf "Diameter" "5"]) 1));
      compute_done.
Defined.

Example drilling_parsed :
  parse_cam_xml (node "Machine" [drilling]) 0 =
  inr ({[ "Drilling" :=
            [ {[ "FeedRate" :=
                   Leaf (Number {| id_of := 0;
                                   value_of := S754_finite false 7205759403792794 (-56) |});
                 "Depth" := Leaf (Text "3");
                 "Drill" := Tool {[ "Name" := "D5"; "Diameter" := "5" ]} ]} ] ]}, 1).
Proof. vm_compute. reflexivity. Qed.

(** * Further properties *)

(** ** compare_features: the shape of the report *)

Lemma report_eq (d d' : FeatureDifferences) :
  additions d = additions d' → modifications d = modifications d' →
  removals d = removals d' → d = d'.
Proof. destruct d, d'. simpl. by intros -> -> ->. Qed.

(** X1. What is added from a baseline to a target is what is removed
    from the target to the baseline, for every tag at once. *)
Theorem additions_are_removals_swapped (cad1 cad2 : CADFeatures) :
  additions (compare_features cad1 cad2) = removals (compare_features cad2 cad1) ∧
  removals (compare_features cad1 cad2) = additions (compare_features cad2 cad1).
Proof.
  split; apply map_eq; intros T;
    by rewrite additions_lookup, removals_lookup.
Qed.

(** X2. A tag is added only if the target has it, removed only if the
    baseline has it, modified only if both have it; and no tag is both
    added and removed. *)
Theorem report_tags (cad1 cad2 : CADFeatures) (T : string) :
  let d := compare_features cad1 cad2 in
  (is_Some (additions d !! T) → is_Some (cad2 !! T)) ∧
  (is_Some (removals d !! T) → is_Some (cad1 !! T)) ∧
  (is_Some (modifications d !! T) → is_Some (cad1 !! T) ∧ is_Some (cad2 !! T)) ∧
  (additions d !! T = None ∨ removals d !! T = None).
Proof.
  cbv zeta. rewrite additions_lookup, removals_lookup, modifications_lookup.
  unfold additions_at, removals_at, modifications_at.
  destruct (cad1 !! T) as [l1|], (cad2 !! T) as [l2|].
  - split; [eauto|]. split; [eauto|]. split; [eauto|].
    destruct (decide (length l1 < length l2)).
    + right. by rewrite bool_decide_eq_false_2 by lia.
    + left. by rewrite bool_decide_eq_false_2.
  - split; [by intros [? ?]|]. split; [eauto|]. split; [by intros [? ?]|]. by left.
  - split; [eauto|]. split; [by intros [? ?]|]. split; [by intros [? ?]|]. by right.
  - split; [by intros [? ?]|]. split; [by intros [? ?]|].
    split; [by intros [? ?]|]. by left.
Qed.

(** X3. Under every tag, the records of the target and the removals are
    as many as the records of the baseline and the additions. *)
Theorem record_count_balance (cad1 cad2 : CADFeatures) (T : string) :
  let d := compare_features cad1 cad2 in
  length (default [] (cad2 !! T)) + length (default [] (removals d !! T)) =
  length (default [] (cad1 !! T)) + length (default [] (additions d !! T)).
Proof.
  cbv zeta. rewrite additions_lookup, removals_lookup.
  unfold additions_at, removals_at.
  destruct (cad1 !! T) as [l1|], (cad2 !! T) as [l2|]; simpl; try lia.
  destruct (decide (length l1 < length l2)), (decide (length l2 < length l1));
    try lia.
  - rewrite (bool_decide_eq_true_2 (length l1 < length l2)) by done.
    rewrite (bool_decide_eq_false_2 (length l2 < length l1)) by done.
    simpl. rewrite length_drop. lia.
  - rewrite (bool_decide_eq_false_2 (length l1 < length l2)) by done.
    rewrite (bool_decide_eq_true_2 (length l2 < length l1)) by done.
    simpl. rewrite length_drop. lia.
  - rewrite (bool_decide_eq_false_2 (length l1 < length l2)) by done.
    rewrite (bool_decide_eq_false_2 (length l2 < length l1)) by done.
    simpl. lia.
Qed.

(** X4. Against the empty collection everything is added; from a
    collection to the empty one everything is removed. *)
Theorem compare_with_empty (X : CADFeatures) :
  compare_features ∅ X = {| additions := X; modifications := ∅; removals := ∅ |} ∧
  compare_features X ∅ = {| additions := ∅; modifications := ∅; removals := X |}.
Proof.
  split; apply report_eq; simpl; apply map_eq; intros T;
    rewrite ?additions_lookup, ?modifications_lookup, ?removals_lookup;
    unfold additions_at, modifications_at, removals_at;
    rewrite ?lookup_empty; destruct (X !! T); done.
Qed.

Lemma last_cons_default {A} (r : A) (l : list A) :
  last (r :: l) = Some (default r (last l)).
Proof.
  revert r. induction l as [|a l IH]; intros r; [done|].
  change (last (r :: a :: l)) with (last (a :: l)). by rewrite !IH.
Qed.

Lemma drop_length_cons {A} (r : A) (l : list A) :
  drop (length l) (r :: l) = [default r (last l)].
Proof.
  revert r. induction l as [|a l IH]; intros r; [done|].
  cbn [length drop]. by rewrite IH, last_cons_default.
Qed.

(** X5. Records are paired by position: when the target is the baseline
    with one record put in front, it is the last record of the baseline
    that is reported as added, not the new one. *)
Theorem front_insertion_adds_last (cad1 cad2 : CADFeatures) (T : string)
    (cad1_list : list Record_) (r : Record_) :
  cad1 !! T = Some cad1_list →
  cad2 !! T = Some (r :: cad1_list) →
  additions (compare_features cad1 cad2) !! T = Some [default r (last cad1_list)] ∧
  removals (compare_features cad1 cad2) !! T = None.
Proof.
  intros H1 H2. rewrite additions_lookup, removals_lookup.
  unfold additions_at, removals_at. rewrite H1, H2. simpl.
  rewrite bool_decide_eq_true_2 by lia.
  rewrite bool_decide_eq_false_2 by lia.
  by rewrite <- drop_length_cons.
Qed.

Lemma front_insertion_adds_last_witness :
  let cad1 : CADFeatures := {[ "HOLE" := [hole1_blank; hole2] ]} in
  let cad2 : CADFeatures := {[ "HOLE" := [pocket1; hole1_blank; hole2] ]} in
  additions (compare_features cad1 cad2) !! "HOLE" = Some [hole2] ∧
  removals (compare_features cad1 cad2) !! "HOLE" = None.
Proof.
  cbv zeta.
  apply (front_insertion_adds_last _ _ "HOLE" [hole1_blank; hole2] pocket1);
    vm_compute; reflexivity.
Defined.

Lemma changed_fields_empty (cad1_detail cad2_detail : Record_) :
  changed_fields cad1_detail cad2_detail = ∅ ↔
  ∀ key value, cad2_detail !! key = Some value →
    ∃ v, cad1_detail !! key = Some v ∧ ne v value = false.
Proof.
  split.
  - intros H key value Hk.
    assert (Hc : changed_fields cad1_detail cad2_detail !! key = None) by by rewrite H.
    rewrite changed_fields_lookup in Hc. unfold field_change in Hc.
    rewrite Hk in Hc. destruct (cad1_detail !! key) as [v|]; [|done].
    exists v. split; [done|]. by destruct (ne v value).
  - intros H. apply map_eq. intros key.
    rewrite changed_fields_lookup, lookup_empty. unfold field_change.
    destruct (cad2_detail !! key) as [value|] eqn:Hk; [|done].
    destruct (H key value Hk) as (v & -> & ->). done.
Qed.

(** X6. A tag of both collections has no modification exactly when, in
    every pair of records at the same position, each attribute of the
    target record is in the baseline record with a value that does not
    differ.  The attributes of the baseline record alone play no part:
    dropping an attribute is not reported. *)
Theorem no_modification_iff (cad1 cad2 : CADFeatures) (T : string)
    (cad1_list cad2_list : list Record_) :
  cad1 !! T = Some cad1_list →
  cad2 !! T = Some cad2_list →
  modifications (compare_features cad1 cad2) !! T = None ↔
  Forall (λ pair : Record_ * Record_,
            ∀ key value, pair.1 !! key = Some value →
              ∃ v, pair.2 !! key = Some v ∧ ne v value = false)
         (zip cad2_list cad1_list).
Proof.
  intros H1 H2. rewrite modifications_lookup. unfold modifications_at.
  rewrite H1, H2, feature_modifications_omap.
  induction (zip cad2_list cad1_list) as [|[r2 r1] l IH].
  - split; [constructor|done].
  - change (omap modification_of ((r2, r1) :: l)) with
      (match modification_of (r2, r1) with
       | Some y => y :: omap modification_of l
       | None => omap modification_of l
       end).
    rewrite Forall_cons. cbn [fst snd].
    rewrite <- (changed_fields_empty r1 r2), <- modification_of_None.
    destruct (modification_of (r2, r1)) eqn:Hm.
    + split; [done|]. by intros [? _].
    + rewrite IH. split; [done|]. by intros [_ ?].
Qed.

Lemma no_modification_iff_witness :
  let cad1 : CADFeatures := {[ "HOLE" := [hole1_blank] ]} in
  let cad2 : CADFeatures := {[ "HOLE" := [ ({[ "Name" := Text "Hole1" ]} : Record_) ] ]} in
  modifications (compare_features cad1 cad2) !! "HOLE" = None ↔
  Forall (λ pair : Record_ * Record_,
            ∀ key value, pair.1 !! key = Some value →
              ∃ v, pair.2 !! key = Some v ∧ ne v value = false)
         (zip [ ({[ "Name" := Text "Hole1" ]} : Record_) ] [hole1_blank]).
Proof.
  cbv zeta.
  apply (no_modification_iff _ _ "HOLE" [hole1_blank]
           [ ({[ "Name" := Text "Hole1" ]} : Record_) ]);
    vm_compute; reflexivity.
Defined.

Example dropped_attribute_not_reported :
  let cad1 : CADFeatures := {[ "HOLE" := [hole1_blank] ]} in
  let cad2 : CADFeatures := {[ "HOLE" := [ ({[ "Name" := Text "Hole1" ]} : Record_) ] ]} in
  compare_features cad1 cad2 = no_differences.
Proof. vm_compute. reflexivity. Qed.

Lemma report_tags_witness :
  let d := compare_features blank_features component_features in
  is_Some (component_features !! "POCKET") ∧
  (additions d !! "POCKET" = None ∨ removals d !! "POCKET" = None).
Proof.
  cbv zeta.
  destruct (report_tags blank_features component_features "POCKET")
    as (Ha & _ & _ & Hd).
  split; [|exact Hd]. apply Ha. vm_compute. eauto.
Defined.

(** ** parse_point without its guard *)

Lemma parse_point_prefix t a b c rest x y z n :
  Py.split t = a :: b :: c :: rest →
  Py.string_to_double a = Some x →
  Py.string_to_double b = Some y →
  Py.string_to_double c = Some z →
  parse_point t n =
  inr (Point {| id_of := n; value_of := x |}
             {| id_of := S n; value_of := y |}
             {| id_of := S (S n); value_of := z |}, S (S (S n))).
Proof.
  intros Hs Ha Hb Hc. unfold parse_point. rewrite Hs.
  unfold getitem; simpl.
  erewrite bind_inr by apply ret_eq.
  erewrite bind_inr by (by apply float_eq_some).
  erewrite bind_inr by apply ret_eq.
  erewrite bind_inr by (by apply float_eq_some).
  erewrite bind_inr by apply ret_eq.
  erewrite bind_inr by (by apply float_eq_some).
  done.
Qed.

(** X7. [parse_point] on any text: it reads the first three tokens and
    ignores the others; it raises [ValueError] when one of the tokens it
    has, among the first three, is no number, and [IndexError] when these
    are numbers but fewer than three. *)
Theorem parse_point_cases (t : string) (n : nat) :
  let parts := Py.split t in
  let number := λ p, is_Some (Py.string_to_double p) in
  (¬ Forall number (take 3 parts) → parse_point t n = inl ValueError) ∧
  (Forall number (take 3 parts) → length parts < 3 →
     parse_point t n = inl IndexError) ∧
  (∀ a b c rest x y z,
     parts = a :: b :: c :: rest →
     Py.string_to_double a = Some x →
     Py.string_to_double b = Some y →
     Py.string_to_double c = Some z →
     parse_point t n =
     inr (Point {| id_of := n; value_of := x |}
                {| id_of := S n; value_of := y |}
                {| id_of := S (S n); value_of := z |}, S (S (S n)))).
Proof.
  cbv zeta. split; [|split].
  - intros Hno. unfold parse_point, getitem.
    destruct (Py.split t) as [|a l]; [destruct Hno; constructor|].
    simpl. erewrite bind_inr by apply ret_eq.
    destruct (Py.string_to_double a) as [x|] eqn:Ha;
      [|apply bind_inl; by apply float_eq_none].
    erewrite bind_inr by (by apply float_eq_some).
    destruct l as [|b l]; [destruct Hno; repeat constructor; eauto|].
    simpl. erewrite bind_inr by apply ret_eq.
    destruct (Py.string_to_double b) as [y|] eqn:Hb;
      [|apply bind_inl; by apply float_eq_none].
    erewrite bind_inr by (by apply float_eq_some).
    destruct l as [|c l]; [destruct Hno; repeat constructor; eauto|].
    simpl. erewrite bind_inr by apply ret_eq.
    destruct (Py.string_to_double c) as [z|] eqn:Hc;
      [|apply bind_inl; by apply float_eq_none].
    destruct Hno. simpl. repeat constructor; eauto.
  - intros Hall Hlen. unfold parse_point, getitem.
    destruct (Py.split t) as [|a l]; [by apply bind_inl|].
    apply Forall_cons in Hall as [[x Ha] Hall].
    simpl. erewrite bind_inr by apply ret_eq.
    erewrite bind_inr by (by apply float_eq_some).
    destruct l as [|b l]; [by apply bind_inl|].
    apply Forall_cons in Hall as [[y Hb] Hall].
    simpl. erewrite bind_inr by apply ret_eq.
    erewrite bind_inr by (by apply float_eq_some).
    destruct l as [|c l]; [by apply bind_inl|].
    simpl in Hlen. lia.
  - intros a b c rest x y z. apply parse_point_prefix.
Qed.

Lemma parse_point_cases_witness :
  parse_point "1 x" 0 = inl ValueError ∧
  parse_point "1 2" 0 = inl IndexError ∧
  parse_point "1 2 3 4" 0 =
    inr (Point {| id_of := 0; value_of := S754_finite false 4503599627370496 (-52) |}
               {| id_of := 1; value_of := S754_finite false 4503599627370496 (-51) |}
               {| id_of := 2; value_of := S754_finite false 6755399441055744 (-51) |}, 3).
Proof.
  split; [|split].
  - apply (proj1 (parse_point_cases "1 x" 0)). compute_done.
  - apply (proj1 (proj2 (parse_point_cases "1 2" 0))); [compute_done|vm_compute; lia].
  - apply (proj2 (proj2 (parse_point_cases "1 2 3 4" 0)) "1" "2" "3" ["4"]);
      vm_compute; reflexivity.
Defined.

(** ** extract_features: the float objects it creates *)

(** A loop keeps what every turn keeps. *)
Lemma for_each_invariant {A B} (I : B → nat → Prop) (body : B → A → M B)
    (l : list A) :
  (∀ acc x n acc' n', I acc n → body acc x n = inr (acc', n') → I acc' n') →
  ∀ acc n acc' n',
    I acc n → for_each body l acc n = inr (acc', n') → I acc' n'.
Proof.
  intros Hbody. induction l as [|x l IH]; intros acc n acc' n' HI H.
  - by injection H as <- <-.
  - cbn [for_each] in H. apply bind_inv_inr in H as (acc1 & n1 & H1 & H).
    eapply IH; [|exact H]. by eapply Hbody.
Qed.

Lemma classify_ids t n v n' :
  classify t n = inr (v, n') →
  n ≤ n' ∧ ∀ f, f ∈ value_floats v → n ≤ id_of f < n'.
Proof.
  intros H. pose proof (classify_cases t n) as Hc.
  assert (Htext : classify t n = inr (Text t, n) →
    n ≤ n' ∧ ∀ f, f ∈ value_floats v → n ≤ id_of f < n').
  { intros Ht. rewrite Ht in H. injection H as <- <-.
    split; [lia|]. intros f Hf. by apply elem_of_nil in Hf. }
  destruct (Py.string_to_double t) as [x|].
  - rewrite Hc in H. injection H as <- <-. split; [lia|].
    intros f Hf. apply list_elem_of_singleton in Hf as ->. simpl. lia.
  - destruct (Py.split t) as [|a [|b [|c [|d l]]]]; try by apply Htext.
    destruct (Py.string_to_double a), (Py.string_to_double b),
      (Py.string_to_double c); try by apply Htext.
    rewrite Hc in H. injection H as <- <-. split; [lia|].
    intros f Hf. simpl in Hf.
    repeat (apply elem_of_cons in Hf as [->|Hf]; [simpl; lia|]).
    by apply elem_of_nil in Hf.
Qed.

Lemma attribute_value_ids e n v n' :
  attribute_value e n = inr (v, n') →
  n ≤ n' ∧ ∀ f, f ∈ value_floats v → n ≤ id_of f < n'.
Proof.
  destruct (text e) as [t|] eqn:Ht.
  - rewrite (attribute_value_text e t) by done. apply classify_ids.
  - by rewrite attribute_value_no_text.
Qed.

Lemma feature_details_ids child n details n' :
  feature_details child n = inr (details, n') →
  n ≤ n' ∧ record_ids_within n n' details.
Proof.
  unfold feature_details.
  apply (for_each_invariant
    (λ (d : Record_) m, n ≤ m ∧ record_ids_within n m d)).
  - intros d e m d' m' [Hle Hd] H.
    apply bind_inv_inr in H as (v & m1 & Hv & H). injection H as <- <-.
    apply attribute_value_ids in Hv as [Hle' Hv]. split; [lia|].
    intros key w f Hk Hf. destruct (decide (tag e = key)) as [<-|Hne].
    + rewrite lookup_insert_eq in Hk. injection Hk as <-.
      specialize (Hv f Hf). lia.
    + rewrite lookup_insert_ne in Hk by done.
      specialize (Hd key w f Hk Hf). lia.
  - split; [lia|]. intros key w f Hk. by rewrite lookup_empty in Hk.
Qed.

Lemma extract_features_ids root n features n' :
  extract_features root n = inr (features, n') →
  n ≤ n' ∧ ids_within n n' features.
Proof.
  unfold extract_features.
  apply (for_each_invariant
    (λ (F : CADFeatures) m, n ≤ m ∧ ids_within n m F)).
  - intros F child m F' m' [Hle HF] H.
    apply bind_inv_inr in H as (d & m1 & Hd & H). injection H as <- <-.
    apply feature_details_ids in Hd as [Hle' Hd]. split; [lia|].
    intros T l r HT Hr. rewrite append_feature_lookup in HT.
    destruct (decide (tag child = T)) as [<-|Hne].
    + injection HT as <-. apply elem_of_app in Hr as [Hr|Hr].
      * destruct (F !! tag child) as [l0|] eqn:Hl0; simpl in Hr;
          [|by apply elem_of_nil in Hr].
        intros key w f Hk Hf. specialize (HF _ _ _ Hl0 Hr key w f Hk Hf). lia.
      * apply list_elem_of_singleton in Hr as ->.
        intros key w f Hk Hf. specialize (Hd key w f Hk Hf). lia.
    + intros key w f Hk Hf. specialize (HF _ _ _ HT Hr key w f Hk Hf). lia.
  - split; [lia|]. intros T l r HT. by rewrite lookup_empty in HT.
Qed.



(** ** extract_features: no feature lost *)

Lemma record_count_insert {A} (m : gmap string (list A)) t l :
  record_count (<[t := l]> m) + length (default [] (m !! t)) =
  record_count m + length l.
Proof.
  unfold record_count. destruct (m !! t) as [l0|] eqn:Ht; simpl.
  - rewrite <- insert_delete_eq.
    rewrite map_to_list_insert by apply lookup_delete_eq.
    rewrite <- (map_to_list_delete m t l0 Ht). simpl. lia.
  - rewrite map_to_list_insert by done. simpl. lia.
Qed.

Lemma append_feature_insert (features : CADFeatures) t details :
  append_feature features t details =
  <[t := default [] (features !! t) ++ [details]]> features.
Proof.
  apply map_eq. intros T. rewrite append_feature_lookup.
  destruct (decide (t = T)) as [<-|Hne].
  - by rewrite lookup_insert_eq.
  - by rewrite lookup_insert_ne.
Qed.

Lemma append_features_count (l : list (Element * Record_)) (features : CADFeatures) :
  record_count (foldl (λ acc p, append_feature acc (tag p.1) p.2) features l) =
  record_count features + length l.
Proof.
  revert features. induction l as [|[e r] l IH]; intros features; simpl; [lia|].
  rewrite IH, append_feature_insert.
  pose proof (record_count_insert features (tag e)
                (default [] (features !! tag e) ++ [r])) as H.
  rewrite length_app in H. simpl in H. lia.
Qed.

Lemma append_features_tags (l : list (Element * Record_)) (features : CADFeatures) T :
  is_Some (foldl (λ acc p, append_feature acc (tag p.1) p.2) features l !! T) ↔
  is_Some (features !! T) ∨ T ∈ tag <$> l.*1.
Proof.
  revert features. induction l as [|[e r] l IH]; intros features; simpl.
  - rewrite elem_of_nil. tauto.
  - rewrite IH, append_feature_lookup, elem_of_cons.
    destruct (decide (tag e = T)) as [<-|Hne].
    + split; [tauto|]. intros _. left. eauto.
    + split; [tauto|]. intros [?|[?|?]]; [tauto|congruence|tauto].
Qed.

Lemma map_M_length {A B} (f : A → M B) (l : list A) n ys n' :
  map_M f l n = inr (ys, n') → length ys = length l.
Proof.
  intros H. apply map_M_Forall2 in H. symmetry. by eapply Forall2_length.
Qed.

(** X9. Extraction of a document whose attribute nodes all have a text
    keeps every feature node, once: the collection has as many records as
    the root has children, and its tags are the tags of these children. *)
Theorem extraction_keeps_every_feature (root : Element) n :
  Forall (λ child, Forall (λ sub_child, is_Some (text sub_child)) (children child))
    (children root) →
  ∃ features n',
    extract_features root n = inr (features, n') ∧
    record_count features = length (children root) ∧
    ∀ T, is_Some (features !! T) ↔ T ∈ tag <$> children root.
Proof.
  intros Hall. destruct (extract_features_returns root n Hall) as (features & n' & H).
  exists features, n'. split; [done|].
  unfold extract_features in H.
  rewrite (for_each_zip feature_details (λ acc x y, append_feature acc (tag x) y)) in H.
  apply bind_inv_inr in H as (records & n1 & Hr & H). injection H as <- <-.
  apply map_M_length in Hr.
  split.
  - rewrite append_features_count. unfold record_count.
    rewrite map_to_list_empty. simpl. rewrite length_zip_with. lia.
  - intros T. rewrite append_features_tags, lookup_empty.
    rewrite fst_zip by lia. split; [|tauto]. intros [[? ?]|?]; done.
Qed.

Lemma extraction_keeps_every_feature_witness :
  ∃ features n',
    extract_features aba_root 0 = inr (features, n') ∧
    record_count features = length (children aba_root) ∧
    ∀ T, is_Some (features !! T) ↔ T ∈ tag <$> children aba_root.
Proof. apply (extraction_keeps_every_feature aba_root 0). compute_done. Defined.

(** ** parse_cam_xml: when it raises *)

(** A loop whose turns fail or not by the element alone returns when no
    element fails, and raises the error of the first that does. *)
Lemma for_each_first_error {A B} (body : B → A → M B) (err : A → option exn)
    (l : list A) :
  (∀ acc x n,
     match err x with
     | Some e => body acc x n = inl e
     | None => ∃ acc' n', body acc x n = inr (acc', n')
     end) →
  ∀ acc n,
    match head (omap err l) with
    | Some e => for_each body l acc n = inl e
    | None => ∃ acc' n', for_each body l acc n = inr (acc', n')
    end.
Proof.
  intros Hbody. induction l as [|x l IH]; intros acc n.
  - simpl. eauto.
  - cbn [for_each]. specialize (Hbody acc x n).
    change (omap err (x :: l)) with
      (match err x with Some y => y :: omap err l | None => omap err l end).
    destruct (err x) as [e|].
    + simpl. by apply bind_inl.
    + destruct Hbody as (acc1 & n1 & H1). erewrite bind_inr by exact H1. apply IH.
Qed.

Lemma head_omap_bind {A B C} (f : B → option C) (g : A → list B) (l : list A) :
  head (omap (λ x, head (omap f (g x))) l) = head (omap f (l ≫= g)).
Proof.
  induction l as [|x l IH]; [done|].
  change (omap (λ x, head (omap f (g x))) (x :: l)) with
    (match head (omap f (g x)) with
     | Some y => y :: omap (λ x, head (omap f (g x))) l
     | None => omap (λ x, head (omap f (g x))) l
     end).
  rewrite bind_cons, omap_app.
  destruct (omap f (g x)) as [|y ys]; simpl; [apply IH|done].
Qed.

Lemma tool_info_of_result (attribute : Element) n :
  if bool_decide (Forall (λ tool_attr, is_Some (text tool_attr)) (children attribute))
  then ∃ tool_info, tool_info_of attribute n = inr (tool_info, n)
  else tool_info_of attribute n = inl AttributeError.
Proof.
  case_bool_decide as Hall.
  - eexists. by apply tool_info_loop.
  - pose proof (for_each_first_error
      (λ (tool_info : gmap string string) tool_attr,
         t ← text_strip tool_attr; mret (<[tag tool_attr := t]> tool_info))
      (λ tool_attr, match text tool_attr with
                    | Some _ => None
                    | None => Some AttributeError
                    end)
      (children attribute)) as H.
    unfold tool_info_of.
    assert (Hhead : head (omap (λ tool_attr, match text tool_attr with
                    | Some _ => None
                    | None => Some AttributeError
                    end) (children attribute)) = Some AttributeError).
    { clear H. induction (children attribute) as [|c l IH].
      - destruct Hall. constructor.
      - simpl. destruct (text c) as [t|] eqn:Ht; simpl; [|done].
        apply IH. intros HF. apply Hall. constructor; [eauto|done]. }
    rewrite Hhead in H. apply H. clear.
    intros acc c n. unfold text_strip. destruct (text c) as [t|].
    + eexists _, _. erewrite bind_inr by apply ret_eq. apply ret_eq.
    + apply bind_inl. done.
Qed.

Lemma cam_attribute_result (attribute : Element) n :
  match cam_attribute_error attribute with
  | Some e => cam_attribute attribute n = inl e
  | None => ∃ v n', cam_attribute attribute n = inr (v, n')
  end.
Proof.
  unfold cam_attribute_error, cam_attribute.
  case_bool_decide as Htool.
  - pose proof (tool_info_of_result attribute n) as H.
    destruct (bool_decide (Forall _ _)).
    + destruct H as [tool_info H]. eexists _, _. by erewrite bind_inr by exact H.
    + by apply bind_inl.
  - destruct (text attribute) as [t|] eqn:Ht.
    + pose proof (cam_leaf_text attribute t n Ht) as H.
      destruct (bool_decide (tag attribute ∈ NUMERIC_ATTRIBUTES)).
      * destruct (Py.string_to_double (Py.strip t)).
        -- eexists _, _. by erewrite bind_inr by exact H.
        -- by apply bind_inl.
      * eexists _, _. by erewrite bind_inr by exact H.
    + apply bind_inl. unfold cam_leaf, text_strip. rewrite Ht. by apply bind_inl.
Qed.

Lemma operation_details_result (operation : Element) n :
  match head (omap cam_attribute_error (children operation)) with
  | Some e => operation_details operation n = inl e
  | None => ∃ details n', operation_details operation n = inr (details, n')
  end.
Proof.
  unfold operation_details. apply for_each_first_error. clear.
  intros acc attribute n. pose proof (cam_attribute_result attribute n) as H.
  destruct (cam_attribute_error attribute) as [e|].
  - apply bind_inl. done.
  - destruct H as (v & n' & H). eexists _, _.
    erewrite bind_inr by exact H. apply ret_eq.
Qed.

Lemma parse_cam_xml_first_error (root : Element) (n : nat) :
  match cam_first_error root with
  | Some e => parse_cam_xml root n = inl e
  | None => ∃ operations n', parse_cam_xml root n = inr (operations, n')
  end.
Proof.
  unfold cam_first_error, parse_cam_xml. rewrite <- head_omap_bind.
  apply for_each_first_error. clear.
  intros acc operation n. pose proof (operation_details_result operation n) as H.
  destruct (head (omap cam_attribute_error (children operation))) as [e|].
  - apply bind_inl. done.
  - destruct H as (d & n' & H). eexists _, _.
    erewrite bind_inr by exact H. apply ret_eq.
Qed.

(** X10. [parse_cam_xml] returns exactly when no child of an operation
    is in error: every leaf has a text, the text of every attribute named
    [Step], [SurfaceSpeed], [FeedRate], [Stock] or [NoseRadius] is a
    number, every child of a tool has a text.  Otherwise it raises the
    error of the first such child in the order of the document:
    [AttributeError] for a missing text, [ValueError] for a text that is
    no number. *)
Theorem parse_cam_xml_result (root : Element) (n : nat) :
  match cam_first_error root with
  | Some e => parse_cam_xml root n = inl e
  | None => ∃ operations n', parse_cam_xml root n = inr (operations, n')
  end.
Proof. apply parse_cam_xml_first_error. Qed.

(** A tool without a text of its own is read; a named attribute that is
    no number stops the reading, before the missing text that follows. *)
Example parse_cam_xml_errors :
  cam_first_error (node "Machine" [drilling]) = None ∧
  parse_cam_xml
    (node "Machine"
       [ node "Facing" [leaf "Geometry" "FACE"; leaf "Stock" "thin"];
         node "Drilling" [mkElement "Depth" None []] ]) 0 = inl ValueError ∧
  parse_cam_xml
    (node "Machine"
       [ node "Drilling" [node "Drill" [mkElement "Name" None []]] ]) 0
  = inl AttributeError.
Proof. repeat split; vm_compute; reflexivity. Qed.

(** ** parse_cam_xml: what it returns *)

Lemma append_operation_lookup (operations : CAMOperations) (t T : string)
    (details : gmap string CamValue) :
  append_operation operations t details !! T =
  if decide (t = T) then Some (default [] (operations !! t) ++ [details])
  else operations !! T.
Proof.
  unfold append_operation. destruct (decide (t = T)) as [<-|Hne].
  - rewrite lookup_alter_eq. destruct (operations !! t) as [l|] eqn:Ht.
    + by rewrite Ht.
    + by rewrite lookup_insert_eq.
  - rewrite lookup_alter_ne by done.
    destruct (operations !! t); [done|]. by rewrite lookup_insert_ne.
Qed.

Lemma append_operations_lookup (l : list (Element * gmap string CamValue))
    (operations : CAMOperations) T :
  foldl (λ acc p, append_operation acc (tag p.1) p.2) operations l !! T =
  match operations !! T, details_with_tag T l with
  | None, [] => None
  | o, ds => Some (default [] o ++ ds)
  end.
Proof.
  revert operations. induction l as [|[e d] l IH]; intros operations.
  - unfold details_with_tag. simpl. destruct (operations !! T); [|done].
    by rewrite app_nil_r.
  - cbn [foldl]. rewrite IH, append_operation_lookup. unfold details_with_tag.
    rewrite filter_cons. simpl. destruct (decide (tag e = T)) as [<-|Hne].
    + rewrite fmap_cons. simpl.
      destruct (operations !! tag e); simpl; [by rewrite <- app_assoc|done].
    + done.
Qed.

(** X11. When [parse_cam_xml] returns, the list of an operation type is
    the list of the details of the operations with that tag, in the order
    of the document, and an operation type without operation is no
    key. *)
Theorem operations_in_document_order (root : Element) (n : nat) :
  cam_first_error root = None →
  ∃ operations n' details,
    parse_cam_xml root n = inr (operations, n') ∧
    map_M operation_details (children root) n = inr (details, n') ∧
    ∀ T, operations !! T =
         match details_with_tag T (zip (children root) details) with
         | [] => None
         | ds => Some ds
         end.
Proof.
  intros Hok. pose proof (parse_cam_xml_first_error root n) as H. rewrite Hok in H.
  destruct H as (operations & n' & H). exists operations, n'.
  pose proof H as H'. unfold parse_cam_xml in H'.
  rewrite (for_each_zip operation_details
             (λ acc x y, append_operation acc (tag x) y)) in H'.
  apply bind_inv_inr in H' as (details & n1 & Hd & H').
  injection H' as <- <-. exists details. split; [done|]. split; [done|].
  intros T. rewrite append_operations_lookup, lookup_empty.
  by destruct (details_with_tag T _).
Qed.

Lemma operations_in_document_order_witness :
  ∃ operations n' details,
    parse_cam_xml (node "Machine" [drilling; drilling]) 0 = inr (operations, n') ∧
    map_M operation_details (children (node "Machine" [drilling; drilling])) 0
      = inr (details, n') ∧
    ∀ T, operations !! T =
         match details_with_tag T
                 (zip (children (node "Machine" [drilling; drilling])) details) with
         | [] => None
         | ds => Some ds
         end.
Proof.
  apply (operations_in_document_order (node "Machine" [drilling; drilling]) 0).
  vm_compute. reflexivity.
Defined.

Lemma cam_attribute_shape (attribute : Element) n v n' :
  cam_attribute attribute n = inr (v, n') → cam_value_shape (tag attribute) v.
Proof.
  unfold cam_attribute. case_bool_decide as Htool; intros H.
  - apply bind_inv_inr in H as (tool_info & n1 & _ & H). by injection H as <- _.
  - apply bind_inv_inr in H as (w & n1 & Hw & H). injection H as <- _.
    destruct (text attribute) as [t|] eqn:Ht.
    + rewrite (cam_leaf_text attribute t) in Hw by done.
      case_bool_decide as Hname.
      * destruct (Py.string_to_double (Py.strip t)); [|done].
        by injection Hw as <- _.
      * by injection Hw as <- _.
    + unfold cam_leaf, text_strip in Hw. rewrite Ht in Hw.
      by rewrite (bind_inl _ _ n AttributeError) in Hw.
Qed.

Lemma operation_details_shape (operation : Element) n details n' :
  operation_details operation n = inr (details, n') →
  map_Forall cam_value_shape details.
Proof.
  unfold operation_details.
  apply (for_each_invariant
    (λ (d : gmap string CamValue) (_ : nat), map_Forall cam_value_shape d)).
  - intros d e m d' m' Hd H.
    apply bind_inv_inr in H as (v & m1 & Hv & H). injection H as <- _.
    apply map_Forall_insert_2; [|done]. by eapply cam_attribute_shape.
  - apply map_Forall_empty.
Qed.

Lemma parse_cam_xml_shapes (root : Element) n operations n' :
  parse_cam_xml root n = inr (operations, n') →
  ∀ T l details key v,
    operations !! T = Some l → details ∈ l → details !! key = Some v →
    cam_value_shape key v.
Proof.
  unfold parse_cam_xml. intros H.
  assert (Hinv : map_Forall (λ _ l, Forall (map_Forall cam_value_shape) l) operations).
  { revert H. apply (for_each_invariant
      (λ (ops : CAMOperations) (_ : nat),
         map_Forall (λ _ l, Forall (map_Forall cam_value_shape) l) ops)).
    - intros ops op m ops' m' Hops H.
      apply bind_inv_inr in H as (d & m1 & Hd & H). injection H as <- _.
      apply operation_details_shape in Hd.
      intros T l HT. rewrite append_operation_lookup in HT.
      destruct (decide (tag op = T)) as [<-|Hne]; [|by apply (Hops T)].
      injection HT as <-. apply Forall_app. split; [|by constructor].
      destruct (ops !! tag op) as [l0|] eqn:Hl0; simpl; [|constructor].
      by apply (Hops (tag op)).
    - apply map_Forall_empty. }
  intros T l details key v HT Hd Hk.
  specialize (Hinv T l HT). rewrite Forall_forall in Hinv.
  by apply (Hinv details Hd key).
Qed.

(** X12. In the operations [parse_cam_xml] returns, a value is the dict
    of a tool exactly under a tool-type key, a float exactly under one of
    the named attributes, a str under any other key, and never a
    point. *)
Theorem parsed_values_typed_by_key (root : Element) n operations n' :
  parse_cam_xml root n = inr (operations, n') →
  ∀ T l details key v,
    operations !! T = Some l → details ∈ l → details !! key = Some v →
    cam_value_shape key v.
Proof. apply parse_cam_xml_shapes. Qed.

Lemma parsed_values_typed_by_key_witness :
  cam_value_shape "Drill" (Tool {[ "Name" := "D5"; "Diameter" := "5" ]}).
Proof.
  eapply (parsed_values_typed_by_key (node "Machine" [drilling]) 0 _ 1
            eq_refl "Drilling" _ _ "Drill");
    [vm_compute; reflexivity|constructor|vm_compute; reflexivity].
Defined.

(** ** required_tools: a sample *)

Example sample_tools :
  required_tools sample_operations =
  inr [ ("TurningToolStandard", []);
        ("Drill",
          [ ("D5", {| ToolDetails := {[ "Name" := "D5"; "Diameter" := "5.0" ]};
                      OperationsList := ["Drilling"; "Boring"] |});
            ("D8", {| ToolDetails := {[ "Name" := "D8"; "Diameter" := "8" ]};
                      OperationsList := ["Drilling"] |}) ]);
        ("SpotDrill",
          [ ("S1", {| ToolDetails := {[ "Name" := "S1" ]};
                      OperationsList := ["Boring"] |}) ]) ].
Proof. vm_compute. reflexivity. Qed.

(** ** Ordered dicts and loops that may raise *)

Lemma od_get_set {V} (k k' : string) (v : V) (d : list (string * V)) :
  od_get k' (od_set k v d) = if decide (k = k') then Some v else od_get k' d.
Proof.
  induction d as [|[k0 v0] d IH]; simpl.
  - destruct (decide (k = k')); done.
  - destruct (decide (k0 = k)) as [->|Hne]; simpl.
    + destruct (decide (k = k')); done.
    + destruct (decide (k0 = k')) as [->|Hne'].
      * by rewrite decide_False by congruence.
      * apply IH.
Qed.

Lemma od_set_set {V} (k : string) (v v' : V) (d : list (string * V)) :
  od_set k v (od_set k v' d) = od_set k v d.
Proof.
  induction d as [|[k0 v0] d IH]; simpl.
  - by rewrite decide_True.
  - destruct (decide (k0 = k)) as [->|Hne]; simpl.
    + by rewrite decide_True.
    + rewrite decide_False by done. by rewrite IH.
Qed.

Lemma od_set_keys {V} (k : string) (v : V) (d : list (string * V)) :
  (od_set k v d).*1 =
  match od_get k d with Some _ => d.*1 | None => d.*1 ++ [k] end.
Proof.
  induction d as [|[k0 v0] d IH]; [done|]. cbn [od_set od_get].
  destruct (decide (k0 = k)) as [->|Hne]; [done|].
  rewrite !fmap_cons, IH. by destruct (od_get k d).
Qed.

Lemma od_get_head {V} (d : list (string * V)) k v :
  head d = Some (k, v) → od_get k d = Some v.
Proof. destruct d as [|[k0 v0] d]; [done|]. intros [= -> ->]. simpl. by rewrite decide_True. Qed.

Lemma od_get_keys {V} (d : list (string * V)) k :
  is_Some (od_get k d) ↔ k ∈ d.*1.
Proof.
  induction d as [|[k0 v0] d IH]; simpl.
  - rewrite elem_of_nil. split; [by intros [? ?]|done].
  - rewrite elem_of_cons. destruct (decide (k0 = k)) as [->|Hne].
    + split; eauto.
    + rewrite IH. split; [tauto|]. intros [?|?]; [congruence|done].
Qed.

Lemma try_fold_app {E A B} (body : B → A → E + B) (l k : list A) acc :
  try_fold body (l ++ k) acc =
  match try_fold body l acc with
  | inl e => inl e
  | inr acc' => try_fold body k acc'
  end.
Proof.
  revert acc. induction l as [|x l IH]; intros acc; simpl; [done|].
  destruct (body acc x); [done|apply IH].
Qed.

Lemma try_fold_bind {E A B C} (body : B → C → E + B) (g : A → list C)
    (l : list A) acc :
  try_fold body (l ≫= g) acc =
  try_fold (λ acc x, try_fold body (g x) acc) l acc.
Proof.
  revert acc. induction l as [|x l IH]; intros acc; [done|].
  rewrite bind_cons, try_fold_app. simpl.
  destruct (try_fold body (g x) acc); [done|apply IH].
Qed.

Lemma try_fold_fmap {E A B C} (body : B → C → E + B) (g : A → C)
    (l : list A) acc :
  try_fold body (g <$> l) acc = try_fold (λ acc x, body acc (g x)) l acc.
Proof.
  revert acc. induction l as [|x l IH]; intros acc; simpl; [done|].
  destruct (body acc (g x)); [done|apply IH].
Qed.

Lemma try_fold_ext {E A B} (body body' : B → A → E + B) (l : list A) acc :
  (∀ acc x, body acc x = body' acc x) →
  try_fold body l acc = try_fold body' l acc.
Proof.
  intros H. revert acc. induction l as [|x l IH]; intros acc; simpl; [done|].
  rewrite H. destruct (body' acc x); [done|apply IH].
Qed.

(** A loop that may raise, with an invariant: it returns when no element
    is in error, and raises the error of the first that is. *)
Lemma try_fold_first_error {E A B} (I : B → Prop) (body : B → A → E + B)
    (err : A → option E) (l : list A) :
  (∀ acc x, x ∈ l → I acc →
     match err x with
     | Some e => body acc x = inl e
     | None => ∃ acc', body acc x = inr acc' ∧ I acc'
     end) →
  ∀ acc, I acc →
    match head (omap err l) with
    | Some e => try_fold body l acc = inl e
    | None => ∃ acc', try_fold body l acc = inr acc' ∧ I acc'
    end.
Proof.
  induction l as [|x l IH]; intros Hbody acc HI.
  - simpl. eauto.
  - pose proof (Hbody acc x (list_elem_of_here x l) HI) as Hx.
    change (omap err (x :: l)) with
      (match err x with Some y => y :: omap err l | None => omap err l end).
    cbn [try_fold]. destruct (err x) as [e|].
    + simpl. by rewrite Hx.
    + destruct Hx as (acc1 & -> & HI1). apply IH; [|done].
      intros acc' y Hy. apply Hbody. by right.
Qed.

(** ** required_tools *)

Lemma use_tool_step operation_type op tools_usage tool_type tool_info tool_name tool_map :
  op !! tool_type = Some (Tool tool_info) →
  tool_info !! "Name" = Some tool_name →
  od_get tool_type tools_usage = Some tool_map →
  use_tool operation_type op tools_usage tool_type =
  inr (od_set tool_type
         (od_set tool_name
            {| ToolDetails := tool_info;
               OperationsList :=
                 OperationsList (default new_usage (od_get tool_name tool_map))
                 ++ [operation_type] |} tool_map)
         tools_usage).
Proof.
  intros Hop Hname Hmap. unfold use_tool, defaultdict_get.
  rewrite Hop, Hname, Hmap.
  destruct (od_get tool_name tool_map) as [usage|] eqn:Hu; simpl.
  - rewrite od_get_set, decide_True by done. simpl. by rewrite od_set_set.
  - rewrite od_set_set, od_get_set, decide_True by done. simpl.
    by rewrite od_set_set.
Qed.

Lemma required_tools_events operations :
  required_tools operations =
  try_fold (λ tools_usage ev, use_tool ev.1.1 ev.1.2 tools_usage ev.2)
    (tool_events operations) ((λ tool_type, (tool_type, [])) <$> TOOLSTYPELIST).
Proof.
  unfold required_tools, tool_events. rewrite try_fold_bind.
  apply try_fold_ext. intros acc [operation_type op_list].
  rewrite try_fold_bind. apply try_fold_ext. intros acc' op.
  by rewrite try_fold_fmap.
Qed.


Lemma usage_of_uses_snoc uses operation_type tool_info :
  usage_of_uses (uses ++ [(operation_type, tool_info)]) =
  Some {| ToolDetails := tool_info; OperationsList := uses.*1 ++ [operation_type] |}.
Proof. unfold usage_of_uses. by rewrite last_snoc, fmap_app. Qed.

Lemma usage_of_uses_operations uses :
  OperationsList (default new_usage (usage_of_uses uses)) = uses.*1.
Proof.
  unfold usage_of_uses. destruct uses as [|u uses _] using rev_ind; [done|].
  rewrite last_snoc. by destruct u.
Qed.

Lemma head_snoc {A} (l : list A) (x : A) :
  head (l ++ [x]) = match head l with Some y => Some y | None => Some x end.
Proof. by destruct l. Qed.

Lemma event_uses_snoc tool_type evs operation_type op tool_type' :
  event_uses tool_type (evs ++ [(operation_type, op, tool_type')]) =
  event_uses tool_type evs ++
  (if decide (tool_type' = tool_type)
   then match op !! tool_type with
        | Some (Tool tool_info) => [(operation_type, tool_info)]
        | _ => []
        end
   else []).
Proof.
  unfold event_uses. rewrite omap_app. f_equal. simpl.
  destruct (decide (tool_type' = tool_type)); [|done].
  by destruct (op !! tool_type) as [[?|?]|].
Qed.

Lemma tools_built_nil :
  tools_built [] ((λ tool_type, (tool_type, [])) <$> TOOLSTYPELIST).
Proof.
  split; [done|]. intros tool_type Hin. exists [].
  split; [|split; [done|split; [done|constructor]]].
  unfold TOOLSTYPELIST in *. simpl.
  repeat (apply elem_of_cons in Hin as [->|Hin]; [by repeat case_decide|]).
  by apply elem_of_nil in Hin.
Qed.

Lemma tools_built_step evs tools operation_type op tool_type tools' :
  tools_built evs tools →
  use_tool operation_type op tools tool_type = inr tools' →
  tools_built (evs ++ [(operation_type, op, tool_type)]) tools'.
Proof.
  intros [Hkeys Hbuilt] Hstep.
  destruct (op !! tool_type) as [[v|tool_info]|] eqn:Hop.
  - unfold use_tool in Hstep. rewrite Hop in Hstep. by destruct v.
  - destruct (tool_info !! "Name") as [tool_name|] eqn:Hname;
      [|unfold use_tool in Hstep; by rewrite Hop, Hname in Hstep].
    destruct (od_get tool_type tools) as [tool_map|] eqn:Hmap;
      [|unfold use_tool in Hstep; by rewrite Hop, Hname, Hmap in Hstep].
    rewrite (use_tool_step _ _ _ _ tool_info tool_name tool_map) in Hstep by done.
    injection Hstep as <-.
    assert (Hin : tool_type ∈ TOOLSTYPELIST).
    { rewrite <- Hkeys. apply od_get_keys. eauto. }
    split; [by rewrite od_set_keys, Hmap|].
    intros tt Htt. rewrite od_get_set, event_uses_snoc.
    destruct (decide (tool_type = tt)) as [<-|Hne].
    + destruct (Hbuilt tool_type Hin) as (tm & Htm & Hget & Hhead & Hnames).
      rewrite Hmap in Htm. injection Htm as <-.
      rewrite Hop. eexists. split; [done|]. split; [|split].
      * intros nm. rewrite od_get_set. unfold uses_named. rewrite filter_app.
        destruct (decide (tool_name = nm)) as [<-|Hnm].
        -- rewrite filter_cons_True by done. rewrite filter_nil.
           rewrite usage_of_uses_snoc, Hget.
           by rewrite usage_of_uses_operations.
        -- rewrite filter_cons_False by (simpl; congruence).
           rewrite filter_nil, app_nil_r. apply Hget.
      * unfold use_names. rewrite omap_app. simpl. rewrite Hname.
        rewrite head_snoc, od_set_keys.
        fold (use_names (event_uses tool_type evs)). rewrite <- Hhead.
        destruct (od_get tool_name tool_map) as [u|] eqn:Hu.
        -- destruct tool_map as [|[k0 v0] tm']; done.
        -- apply head_snoc.
      * apply Forall_app. split; [done|]. constructor; [|constructor].
        simpl. rewrite Hname. eauto.
    + destruct (Hbuilt tt Htt) as (tm & Htm & Hget & Hhead & Hnames).
      exists tm. by rewrite app_nil_r.
  - unfold use_tool in Hstep. rewrite Hop in Hstep. injection Hstep as <-.
    split; [done|]. intros tt Htt. rewrite event_uses_snoc.
    destruct (Hbuilt tt Htt) as (tm & Htm & Hget & Hhead & Hnames). exists tm.
    destruct (decide (tool_type = tt)) as [<-|Hne];
      [rewrite Hop|]; by rewrite app_nil_r.
Qed.

Lemma tools_built_fold evs tools0 tools pre :
  tools_built pre tools0 →
  try_fold (λ tools_usage ev, use_tool ev.1.1 ev.1.2 tools_usage ev.2) evs tools0
    = inr tools →
  tools_built (pre ++ evs) tools.
Proof.
  revert tools0 pre. induction evs as [|[[ot op] tt] evs IH]; intros tools0 pre H0 H.
  - injection H as <-. by rewrite app_nil_r.
  - cbn [try_fold] in H. simpl in H.
    destruct (use_tool ot op tools0 tt) as [e|tools1] eqn:Hstep; [done|].
    rewrite (cons_middle _ pre evs), app_assoc. eapply IH; [|exact H].
    by eapply tools_built_step.
Qed.

Lemma event_uses_events tool_type operations :
  tool_type ∈ TOOLSTYPELIST →
  event_uses tool_type (tool_events operations) = tool_uses tool_type operations.
Proof.
  intros Hin. unfold event_uses, tool_events, tool_uses.
  induction operations as [|[operation_type op_list] operations IH]; [done|].
  rewrite !bind_cons, omap_app, IH. f_equal.
  induction op_list as [|op op_list IHop]; [done|].
  rewrite !bind_cons, omap_app, IHop. f_equal.
  unfold TOOLSTYPELIST in *. simpl.
  repeat (apply elem_of_cons in Hin as [->|Hin];
    [repeat case_decide; try done; by destruct (op !! _) as [[?|?]|]|]).
  by apply elem_of_nil in Hin.
Qed.
Lemma required_tools_first_error (operations : list (string * list (gmap string CamValue))) :
  match head (omap tool_event_error (tool_events operations)) with
  | Some e => required_tools operations = inl e
  | None => ∃ tools, required_tools operations = inr tools ∧ tools.*1 = TOOLSTYPELIST
  end.
Proof.
  rewrite required_tools_events.
  apply (try_fold_first_error (λ tools : ToolsDict, tools.*1 = TOOLSTYPELIST));
    [|done].
  intros tools [[ot op] tt] Hev Hkeys. unfold tool_event_error, use_tool. simpl.
  destruct (op !! tt) as [[[f|x y z|s]|tool_info]|] eqn:Hop; try done; [|eauto].
  destruct (tool_info !! "Name") as [tool_name|] eqn:Hname; [|done].
  assert (Htt : tt ∈ TOOLSTYPELIST).
  { unfold tool_events in Hev. apply list_elem_of_bind in Hev as ([ot' ops] & Hev & _).
    apply list_elem_of_bind in Hev as (op' & Hev & _).
    apply list_elem_of_fmap in Hev as (tt' & [= _ _ ->] & Htt). done. }
  rewrite <- Hkeys in Htt. apply od_get_keys in Htt as [tool_map Hmap].
  pose proof (use_tool_step ot op tools tt tool_info tool_name tool_map Hop Hname Hmap)
    as Hstep.
  unfold use_tool in Hstep. rewrite Hop, Hname in Hstep. rewrite Hstep.
  eexists. split; [done|]. by rewrite od_set_keys, Hmap.
Qed.

(** X13. [required_tools] returns exactly when, in every operation, the
    value under each tool type it has is a dict with a [Name]; otherwise
    it raises the error of the first turn of its innermost loop that
    fails: [TypeError] for a float or a str, [KeyError] for a dict
    without [Name].  What it returns has the three tool types as keys, in
    their order, also for no operation at all. *)
Theorem required_tools_result (operations : list (string * list (gmap string CamValue))) :
  match head (omap tool_event_error (tool_events operations)) with
  | Some e => required_tools operations = inl e
  | None => ∃ tools, required_tools operations = inr tools ∧ tools.*1 = TOOLSTYPELIST
  end.
Proof. apply required_tools_first_error. Qed.

(** X14. In what [required_tools] returns, a tool type has an entry for
    a tool name exactly when an operation has a tool of that type with
    that [Name]; the entry holds the details of the last such tool and
    the operation types of all of them, one per operation, in order. *)
Theorem required_tools_entries operations tools tool_type :
  required_tools operations = inr tools →
  tool_type ∈ TOOLSTYPELIST →
  ∃ tool_map,
    od_get tool_type tools = Some tool_map ∧
    ∀ tool_name,
      od_get tool_name tool_map =
      usage_of_uses (uses_named tool_name (tool_uses tool_type operations)).
Proof.
  intros H Hin. rewrite required_tools_events in H.
  apply (tools_built_fold _ _ _ [] tools_built_nil) in H.
  rewrite app_nil_l in H. destruct H as [_ H].
  destruct (H tool_type Hin) as (tool_map & Hmap & Hget & _ & _).
  exists tool_map. split; [done|]. intros tool_name.
  by rewrite Hget, event_uses_events.
Qed.

Lemma required_tools_entries_witness :
  ∃ tool_map,
    od_get "Drill"
      [ ("TurningToolStandard", []);
        ("Drill",
          [ ("D5", {| ToolDetails := {[ "Name" := "D5"; "Diameter" := "5.0" ]};
                      OperationsList := ["Drilling"; "Boring"] |});
            ("D8", {| ToolDetails := {[ "Name" := "D8"; "Diameter" := "8" ]};
                      OperationsList := ["Drilling"] |}) ]);
        ("SpotDrill",
          [ ("S1", {| ToolDetails := {[ "Name" := "S1" ]};
                      OperationsList := ["Boring"] |}) ]) ] = Some tool_map ∧
    ∀ tool_name,
      od_get tool_name tool_map =
      usage_of_uses (uses_named tool_name (tool_uses "Drill" sample_operations)).
Proof.
  apply (required_tools_entries sample_operations _ "Drill");
    [vm_compute; reflexivity|compute_done].
Defined.

(** X15. The tool [find_tool_for_operation] finds in what
    [required_tools] returns is the one named in the first operation that
    has a tool of the type, with the details of its last use and the
    operation types of all its uses; there is none when no operation has
    a tool of the type. *)
Theorem first_tool_found operations tools tool_type :
  required_tools operations = inr tools →
  tool_type ∈ TOOLSTYPELIST →
  find_tool_for_operation tool_type tools =
  match tool_uses tool_type operations with
  | [] => None
  | (_, tool_info) :: _ =>
      tool_name ← tool_info !! "Name";
      usage_of_uses (uses_named tool_name (tool_uses tool_type operations))
  end.
Proof.
  intros H Hin. rewrite required_tools_events in H.
  apply (tools_built_fold _ _ _ [] tools_built_nil) in H.
  rewrite app_nil_l in H. destruct H as [_ H].
  destruct (H tool_type Hin) as (tool_map & Hmap & Hget & Hhead & Hnames).
  rewrite event_uses_events in Hget, Hhead, Hnames by done.
  unfold find_tool_for_operation. rewrite Hmap. simpl.
  destruct (tool_uses tool_type operations) as [|[ot info] uses] eqn:Hu.
  - destruct tool_map as [|[k u] tool_map]; done.
  - apply Forall_cons in Hnames as [[nm Hnm] _]. simpl in Hnm.
    unfold use_names in Hhead. simpl in Hhead. rewrite Hnm in Hhead.
    simpl in Hhead. rewrite Hnm. simpl.
    destruct tool_map as [|[k u] tool_map]; [done|].
    simpl in Hhead. injection Hhead as ->.
    rewrite <- Hget. simpl. by rewrite decide_True.
Qed.

Lemma first_tool_found_witness :
  find_tool_for_operation "Drill"
    [ ("TurningToolStandard", []);
      ("Drill",
        [ ("D5", {| ToolDetails := {[ "Name" := "D5"; "Diameter" := "5.0" ]};
                    OperationsList := ["Drilling"; "Boring"] |});
          ("D8", {| ToolDetails := {[ "Name" := "D8"; "Diameter" := "8" ]};
                    OperationsList := ["Drilling"] |}) ]);
      ("SpotDrill",
        [ ("S1", {| ToolDetails := {[ "Name" := "S1" ]};
                    OperationsList := ["Boring"] |}) ]) ] =
  match tool_uses "Drill" sample_operations with
  | [] => None
  | (_, tool_info) :: _ =>
      tool_name ← tool_info !! "Name";
      usage_of_uses (uses_named tool_name (tool_uses "Drill" sample_operations))
  end.
Proof.
  apply (first_tool_found sample_operations _ "Drill");
    [vm_compute; reflexivity|compute_done].
Defined.

(** X16. On the operations [parse_cam_xml] returns, listed in any order,
    [required_tools] raises no [TypeError]: under a tool type there is
    always the dict of a tool. *)
Theorem required_tools_of_parsed (root : Element) n operations n'
    (items : list (string * list (gmap string CamValue))) :
  parse_cam_xml root n = inr (operations, n') →
  (∀ operation_type op_list,
     (operation_type, op_list) ∈ items → operations !! operation_type = Some op_list) →
  required_tools items ≠ inl TypeError.
Proof.
  intros Hparse Hitems Hraise.
  pose proof (required_tools_first_error items) as H. rewrite Hraise in H.
  destruct (head (omap tool_event_error (tool_events items))) as [e|] eqn:Hhead;
    [|by destruct H as (? & ? & _)].
  injection H as <-.
  apply head_Some_elem_of, list_elem_of_omap in Hhead as ([[ot op] tt] & Hev & Herr).
  unfold tool_events in Hev.
  apply list_elem_of_bind in Hev as ([ot' ops] & Hev & Hops).
  apply list_elem_of_bind in Hev as (op' & Hev & Hop).
  apply list_elem_of_fmap in Hev as (tt' & [= -> -> ->] & Htt).
  unfold tool_event_error in Herr. simpl in Herr.
  destruct (op' !! tt') as [v|] eqn:Hv; [|done].
  pose proof (parse_cam_xml_shapes root n operations n' Hparse
                ot' ops op' tt' v (Hitems _ _ Hops) Hop Hv) as Hshape.
  destruct v as [[f|x y z|s]|tool_info]; simpl in Hshape; try tauto.
  by destruct (tool_info !! "Name").
Qed.

Lemma required_tools_of_parsed_witness :
  required_tools
    [ ("Drilling",
        [ ({[ "FeedRate" :=
                Leaf (Number {| id_of := 0;
                                value_of := S754_finite false 7205759403792794 (-56) |});
              "Depth" := Leaf (Text "3");
              "Drill" := Tool {[ "Name" := "D5"; "Diameter" := "5" ]} ]}
           : gmap string CamValue) ]) ]
  ≠ inl TypeError.
Proof.
  eapply (required_tools_of_parsed (node "Machine" [drilling]) 0 _ 1).
  - vm_compute. reflexivity.
  - intros operation_type op_list Hin.
    apply list_elem_of_singleton in Hin. injection Hin as -> ->.
    vm_compute. reflexivity.
Defined.

(** ** features_dict_to_dataframe: the rows *)

Example sample_rows :
  dataframe_rows [ ("HOLE", [hole1_blank]);
                   ("SLOT", [ ({[ "FeatureType" := Text "T-slot" ]} : Record_) ]) ] =
  [ {[ "FeatureType" := Text "HOLE"; "Name" := Text "Hole1";
       "Diameter" := Number {| id_of := 0;
                               value_of := S754_finite false 6755399441055744 (-51) |} ]};
    {[ "FeatureType" := Text "T-slot" ]} ].
Proof. vm_compute. reflexivity. Qed.

Example sample_mapping :
  geometry_to_operations [("FACE", "Facing"); ("BORE", "Drilling"); ("FACE", "Finishing")] =
  [("FACE", ["Facing"; "Finishing"]); ("BORE", ["Drilling"])].
Proof. vm_compute. reflexivity. Qed.

Lemma dataframe_rows_bind (features : list (string * list Record_)) :
  dataframe_rows features =
  features ≫= λ '(feature_type, instances),
    (λ instance, instance ∪ {[ "FeatureType" := Text feature_type ]}) <$> instances.
Proof.
  unfold dataframe_rows.
  cut (∀ rows,
    foldl (λ rows '(feature_type, instances),
      foldl (λ rows (instance : Record_),
          rows ++ [instance ∪ {[ "FeatureType" := Text feature_type ]}])
        rows instances) rows features =
    rows ++ (features ≫= λ '(feature_type, instances),
      (λ instance : Record_, instance ∪ {[ "FeatureType" := Text feature_type ]})
        <$> instances)).
  { intros H. by rewrite H. }
  induction features as [|[feature_type instances] features IH]; intros rows.
  - by rewrite app_nil_r.
  - cbn [foldl]. rewrite IH, bind_cons, app_assoc. f_equal.
    clear. revert rows. induction instances as [|i instances IH]; intros rows.
    + by rewrite app_nil_r.
    + cbn [foldl]. rewrite IH, fmap_cons, <- app_assoc. done.
Qed.

(** X17. [features_dict_to_dataframe] makes one row per record, in the
    order of the collection and, under a tag, in the order of its list;
    the row has the attributes of the record and, under [FeatureType],
    the tag of the record, unless the record has an attribute of that
    name, which then takes its place. *)
Theorem dataframe_rows_spec (features : list (string * list Record_)) :
  Forall2 (λ (row : Record_) (p : string * Record_),
      row !! "FeatureType" = Some (default (Text p.1) (p.2 !! "FeatureType")) ∧
      ∀ key, key ≠ "FeatureType" → row !! key = p.2 !! key)
    (dataframe_rows features)
    (features ≫= λ '(feature_type, instances),
       (λ instance : Record_, (feature_type, instance)) <$> instances).
Proof.
  rewrite dataframe_rows_bind.
  induction features as [|[feature_type instances] features IH]; [constructor|].
  rewrite !bind_cons. apply Forall2_app; [|exact IH].
  apply Forall2_fmap, Forall_Forall2_diag, Forall_forall.
  intros instance _. cbn [fst snd]. split.
  - rewrite lookup_union, lookup_singleton_eq.
    by destruct (instance !! "FeatureType").
  - intros key Hkey. rewrite lookup_union, lookup_singleton_ne by done.
    by destruct (instance !! key).
Qed.

Lemma dataframe_rows_spec_witness :
  Forall2 (λ (row : Record_) (p : string * Record_),
      row !! "FeatureType" = Some (default (Text p.1) (p.2 !! "FeatureType")) ∧
      ∀ key, key ≠ "FeatureType" → row !! key = p.2 !! key)
    (dataframe_rows
       [ ("HOLE", [hole1_blank]);
         ("SLOT", [ ({[ "FeatureType" := Text "T-slot" ]} : Record_) ]) ])
    ([ ("HOLE", [hole1_blank]);
       ("SLOT", [ ({[ "FeatureType" := Text "T-slot" ]} : Record_) ]) ]
     ≫= λ '(feature_type, instances),
          (λ instance : Record_, (feature_type, instance)) <$> instances).
Proof.
  apply (dataframe_rows_spec
           [ ("HOLE", [hole1_blank]);
             ("SLOT", [ ({[ "FeatureType" := Text "T-slot" ]} : Record_) ]) ]).
Defined.

(** ** read_geometry_to_operation_mapping *)

Lemma geometry_step_lookup (mapping : list (string * list string)) geometry operation g :
  od_get g
    (od_set geometry
       (default [] (od_get geometry
          match od_get geometry mapping with
          | None => od_set geometry [] mapping
          | Some _ => mapping
          end) ++ [operation])
       match od_get geometry mapping with
       | None => od_set geometry [] mapping
       | Some _ => mapping
       end) =
  if decide (geometry = g) then Some (default [] (od_get geometry mapping) ++ [operation])
  else od_get g mapping.
Proof.
  rewrite od_get_set. destruct (decide (geometry = g)) as [<-|Hne].
  - destruct (od_get geometry mapping) as [l|] eqn:Hl.
    + by rewrite Hl.
    + by rewrite od_get_set, decide_True.
  - destruct (od_get geometry mapping); [done|].
    by rewrite od_get_set, decide_False.
Qed.

Lemma geometry_step_keys (mapping : list (string * list string)) geometry operation :
  NoDup mapping.*1 →
  NoDup (od_set geometry
       (default [] (od_get geometry
          match od_get geometry mapping with
          | None => od_set geometry [] mapping
          | Some _ => mapping
          end) ++ [operation])
       match od_get geometry mapping with
       | None => od_set geometry [] mapping
       | Some _ => mapping
       end).*1.
Proof.
  intros Hnd. rewrite od_set_keys.
  destruct (od_get geometry mapping) as [l|] eqn:Hl.
  - by rewrite Hl.
  - rewrite od_get_set, decide_True by done. rewrite od_set_keys, Hl.
    apply NoDup_app. split; [done|]. split; [|apply NoDup_singleton].
    intros k Hk Hk'. apply list_elem_of_singleton in Hk' as ->.
    apply od_get_keys in Hk as [? ?]. congruence.
Qed.

Lemma geometry_fold_lookup (rows : list (string * string))
    (mapping : list (string * list string)) g :
  od_get g
    (foldl (λ mapping '(geometry, operation),
        let mapping :=
          match od_get geometry mapping with
          | None => od_set geometry [] mapping
          | Some _ => mapping
          end in
        od_set geometry (default [] (od_get geometry mapping) ++ [operation]) mapping)
      mapping rows) =
  match od_get g mapping, (filter (λ row, row.1 = g) rows).*2 with
  | None, [] => None
  | o, operations => Some (default [] o ++ operations)
  end.
Proof.
  revert mapping. induction rows as [|[geometry operation] rows IH]; intros mapping.
  - simpl. destruct (od_get g mapping); [|done]. by rewrite app_nil_r.
  - cbn [foldl]. cbv zeta. rewrite IH, geometry_step_lookup.
    rewrite filter_cons. cbn [fst].
    destruct (decide (geometry = g)) as [<-|Hne]; [|done].
    rewrite fmap_cons. cbn [snd].
    destruct (od_get geometry mapping); simpl; [by rewrite <- app_assoc|done].
Qed.

Lemma geometry_fold_keys (rows : list (string * string))
    (mapping : list (string * list string)) :
  NoDup mapping.*1 →
  NoDup (foldl (λ mapping '(geometry, operation),
        let mapping :=
          match od_get geometry mapping with
          | None => od_set geometry [] mapping
          | Some _ => mapping
          end in
        od_set geometry (default [] (od_get geometry mapping) ++ [operation]) mapping)
      mapping rows).*1.
Proof.
  revert mapping. induction rows as [|[geometry operation] rows IH]; intros mapping Hnd.
  - done.
  - cbn [foldl]. cbv zeta. apply IH. by apply geometry_step_keys.
Qed.

(** X18. [read_geometry_to_operation_mapping] gives a geometry the
    operations of the rows with that geometry, in the order of the rows
    and with their repetitions; a geometry of no row is no key, and no key
    comes twice. *)
Theorem geometry_to_operations_spec (rows : list (string * string)) :
  NoDup (geometry_to_operations rows).*1 ∧
  ∀ g, od_get g (geometry_to_operations rows) =
       match (filter (λ row, row.1 = g) rows).*2 with
       | [] => None
       | operations => Some operations
       end.
Proof.
  unfold geometry_to_operations. split.
  - apply geometry_fold_keys. constructor.
  - intros g. rewrite geometry_fold_lookup. simpl.
    by destruct ((filter _ rows).*2).
Qed.

(** ** A number is no point *)

Lemma isdigit_no_space c : Py.isdigit c = true → Py.isspace c = false.
Proof. destruct c as [[] [] [] [] [] [] [] []]; by vm_compute. Qed.

Lemma is_underscore_no_space c : Py.is_underscore c = true → Py.isspace c = false.
Proof. destruct c as [[] [] [] [] [] [] [] []]; by vm_compute. Qed.

Lemma float_isspace_isspace c : Py.float_isspace c = true → Py.isspace c = true.
Proof. destruct c as [[] [] [] [] [] [] [] []]; by vm_compute. Qed.

Lemma lower_isspace c : Py.isspace c = true → Py.isspace (Py.lower c) = true.
Proof. destruct c as [[] [] [] [] [] [] [] []]; by vm_compute. Qed.

Lemma no_space_lowercase s : no_space (Py.lowercase s) = true → no_space s = true.
Proof.
  induction s as [|c s IH]; [done|]. simpl.
  intros [Hc Hs]%andb_true_iff. rewrite IH by done.
  destruct (Py.isspace c) eqn:Hsp; [|done].
  by rewrite lower_isspace in Hc.
Qed.

Lemma take_digits_no_space acc count s m k rest :
  Py.take_digits acc count s = (m, k, rest) →
  no_space rest = true → no_space s = true.
Proof.
  revert acc count. induction s as [|c s IH]; intros acc count H Hrest; simpl in H.
  - by injection H as _ _ <-.
  - destruct (Py.isdigit c) eqn:Hd.
    + simpl. rewrite (isdigit_no_space c Hd). simpl. by eapply IH.
    + by injection H as _ _ <-.
Qed.

Lemma parse_sign_no_space s :
  no_space (Py.parse_sign s).2 = true → no_space s = true.
Proof.
  destruct s as [|c s]; [done|]. unfold Py.parse_sign.
  destruct (nat_of_ascii c =? 45) eqn:H45; simpl.
  - intros ->. apply Nat.eqb_eq in H45.
    assert (c = ascii_of_nat 45) as -> by (by rewrite <- H45, ascii_nat_embedding).
    done.
  - destruct (nat_of_ascii c =? 43) eqn:H43; simpl; [|done].
    intros ->. apply Nat.eqb_eq in H43.
    assert (c = ascii_of_nat 43) as -> by (by rewrite <- H43, ascii_nat_embedding).
    done.
Qed.

Lemma parse_exponent_no_space s e :
  Py.parse_exponent s = Some e → no_space s = true.
Proof.
  unfold Py.parse_exponent. intros H. apply parse_sign_no_space.
  destruct (Py.parse_sign s) as [neg r]. simpl.
  destruct (Py.take_digits 0 0 r) as [[m k] rest] eqn:Ht.
  destruct k; [done|]. destruct rest; [|done].
  by eapply take_digits_no_space.
Qed.

Lemma parse_decimal_no_space s me :
  Py.parse_decimal s = Some me → no_space s = true.
Proof.
  unfold Py.parse_decimal.
  destruct (Py.take_digits 0 0 s) as [[m1 n1] r1] eqn:H1.
  intros H. eapply take_digits_no_space; [exact H1|].
  assert (Htail : ∀ m2 n2 r2,
    match n1 + n2 with
    | 0 => None
    | S _ =>
        match r2 with
        | EmptyString => Some (m2, (- Z.of_nat n2)%Z)
        | String c r =>
            if (nat_of_ascii c =? 101) || (nat_of_ascii c =? 69)
            then e ← Py.parse_exponent r; Some (m2, (e - Z.of_nat n2)%Z)
            else None
        end
    end = Some me → no_space r2 = true).
  { intros m2 n2 r2 Hm. destruct (n1 + n2); [done|].
    destruct r2 as [|c r]; [done|].
    destruct ((nat_of_ascii c =? 101) || (nat_of_ascii c =? 69)) eqn:He; [|done].
    destruct (Py.parse_exponent r) as [e|] eqn:Hexp; [|done].
    simpl. rewrite (parse_exponent_no_space r e Hexp), andb_true_r.
    apply orb_true_iff in He as [He|He]; apply Nat.eqb_eq in He.
    - assert (c = ascii_of_nat 101) as -> by (by rewrite <- He, ascii_nat_embedding).
      done.
    - assert (c = ascii_of_nat 69) as -> by (by rewrite <- He, ascii_nat_embedding).
      done. }
  destruct r1 as [|c r]; [by apply (Htail m1 0 EmptyString)|].
  destruct (nat_of_ascii c =? 46) eqn:Hdot.
  - destruct (Py.take_digits m1 0 r) as [[m2 n2] r2] eqn:H2.
    apply Nat.eqb_eq in Hdot.
    assert (c = ascii_of_nat 46) as -> by (by rewrite <- Hdot, ascii_nat_embedding).
    simpl. eapply take_digits_no_space; [exact H2|]. by eapply Htail.
  - by apply (Htail m1 0 (String c r)).
Qed.

Lemma one_token_spaces st s :
  st ≠ Leading → Py.rstrip_with Py.float_isspace s = EmptyString →
  one_token_from st s = true.
Proof.
  revert st. induction s as [|c s IH]; intros st Hst Hs.
  - by destruct st.
  - simpl in Hs. destruct (Py.rstrip_with Py.float_isspace s) eqn:Hr; [|done].
    destruct (Py.float_isspace c) eqn:Hc; [|done].
    simpl. rewrite (float_isspace_isspace c Hc).
    destruct st; [done|by apply IH..].
Qed.

Lemma one_token_rstrip st s :
  st ≠ Trailing →
  Py.rstrip_with Py.float_isspace s ≠ EmptyString →
  no_space (Py.rstrip_with Py.float_isspace s) = true →
  one_token_from st s = true.
Proof.
  revert st. induction s as [|c s IH]; intros st Hst Hne Hns; [done|].
  simpl in Hne, Hns. simpl.
  destruct (Py.rstrip_with Py.float_isspace s) as [|c' core] eqn:Hr.
  - destruct (Py.float_isspace c); [done|]. simpl in Hns.
    apply andb_true_iff in Hns as [Hc _]. apply negb_true_iff in Hc. rewrite Hc.
    destruct st; [|  |done]; by apply one_token_spaces.
  - simpl in Hns. apply andb_true_iff in Hns as [Hc Hns].
    apply negb_true_iff in Hc. rewrite Hc.
    destruct st; [| |done]; by apply IH.
Qed.

Lemma one_token_lstrip s :
  one_token_from Leading (Py.lstrip_with Py.float_isspace s) = true →
  one_token_from Leading s = true.
Proof.
  induction s as [|c s IH]; [done|]. simpl.
  destruct (Py.float_isspace c) eqn:Hc; [|done].
  rewrite (float_isspace_isspace c Hc). apply IH.
Qed.

(** Underscores stand between digits, inside the token. *)
Lemma one_token_underscores prev st s s1 :
  Py.drop_underscores prev s = Some s1 →
  (∀ p, prev = Some p → Py.isdigit p = true → st = Inside) →
  one_token_from st s1 = true → one_token_from st s = true.
Proof.
  revert prev st s1. induction s as [|c s IH]; intros prev st s1 Hdrop Hprev Hs1.
  - simpl in Hdrop.
    destruct prev as [p|]; [destruct (Py.is_underscore p); [done|]|];
      by injection Hdrop as <-.
  - simpl in Hdrop. destruct (Py.is_underscore c) eqn:Hu.
    + destruct prev as [p|]; [|done]. destruct (Py.isdigit p) eqn:Hp; [|done].
      rewrite (Hprev p eq_refl Hp) in *. simpl.
      rewrite (is_underscore_no_space c Hu).
      eapply IH; [exact Hdrop| |done].
      intros p' [= <-] Hd. apply isdigit_no_space in Hd.
      destruct c as [[] [] [] [] [] [] [] []]; by vm_compute in Hu, Hd.
    + assert (Hrest : ∃ s1', Py.drop_underscores (Some c) s = Some s1' ∧
                             s1 = String c s1').
      { destruct prev as [p|].
        - destruct (Py.is_underscore p && negb (Py.isdigit c)); [done|].
          destruct (Py.drop_underscores (Some c) s) as [s1'|]; [|done].
          injection Hdrop as <-. eauto.
        - destruct (Py.drop_underscores (Some c) s) as [s1'|]; [|done].
          injection Hdrop as <-. eauto. }
      destruct Hrest as (s1' & Hdrop' & ->). simpl in Hs1 |- *.
      destruct (Py.isspace c) eqn:Hsp.
      * destruct st; (eapply IH; [exact Hdrop'| |done]);
          intros p' [= <-] Hd; apply isdigit_no_space in Hd; congruence.
      * destruct st; [| |done]; (eapply IH; [exact Hdrop'| |done]); done.
Qed.

Lemma string_to_double_one_token s v :
  Py.string_to_double s = Some v → one_token_from Leading s = true.
Proof.
  unfold Py.string_to_double. intros H.
  destruct (Py.drop_underscores None s) as [s1|] eqn:Hdrop; [|done]. simpl in H.
  eapply one_token_underscores; [exact Hdrop|done|].
  apply one_token_lstrip.
  destruct (Py.rstrip_with Py.float_isspace (Py.lstrip_with Py.float_isspace s1))
    as [|c core] eqn:Hcore; [done|].
  apply one_token_rstrip; [done|by rewrite Hcore|]. rewrite Hcore.
  apply parse_sign_no_space.
  destruct (Py.parse_sign (String c core)) as [neg r] eqn:Hsign. simpl.
  unfold Py.parse_sign in Hsign. rewrite Hsign in H.
  destruct (Py.parse_decimal r) as [[m e]|] eqn:Hdec.
  - by eapply parse_decimal_no_space.
  - apply no_space_lowercase.
    destruct (Py.lowercase r =? "inf")%string eqn:Hinf.
    { apply String.eqb_eq in Hinf. by rewrite Hinf. }
    destruct (Py.lowercase r =? "infinity")%string eqn:Hinfinity.
    { apply String.eqb_eq in Hinfinity. by rewrite Hinfinity. }
    destruct (Py.lowercase r =? "nan")%string eqn:Hnan; [|done].
    apply String.eqb_eq in Hnan. by rewrite Hnan.
Qed.

Lemma append_not_empty tok c : tok +:+ String c EmptyString ≠ EmptyString.
Proof. by destruct tok. Qed.

Lemma split_trailing s :
  one_token_from Trailing s = true → Py.split_from EmptyString s = [].
Proof.
  induction s as [|c s IH]; [done|]. simpl.
  destruct (Py.isspace c); [apply IH|done].
Qed.

Lemma split_inside tok s :
  tok ≠ EmptyString → one_token_from Inside s = true →
  length (Py.split_from tok s) = 1.
Proof.
  revert tok. induction s as [|c s IH]; intros tok Htok Hs.
  - simpl. by destruct tok.
  - simpl in Hs |- *. destruct (Py.isspace c).
    + destruct tok; [done|]. simpl. by rewrite split_trailing.
    + apply IH; [apply append_not_empty|done].
Qed.

Lemma split_leading s :
  one_token_from Leading s = true → length (Py.split s) = 1.
Proof.
  unfold Py.split. induction s as [|c s IH]; [done|]. simpl.
  destruct (Py.isspace c); [apply IH|].
  apply split_inside. apply append_not_empty.
Qed.

(** X19. What [is_number] accepts [is_point] rejects: a text that
    [float] reads has exactly one token.  The order of the two tests in
    [extract_features] plays no part in the result. *)
Theorem number_is_no_point (t : string) (n : nat) :
  is_number t n = inr (true, n) → is_point t n = inr (false, n).
Proof.
  rewrite is_number_eq, is_point_eq. intros [= Hnum].
  apply bool_decide_eq_true in Hnum as [v Hv].
  apply string_to_double_one_token, split_leading in Hv.
  rewrite bool_decide_eq_false_2; [done|]. intros [Hlen _]. lia.
Qed.

Lemma number_is_no_point_witness : is_point " -1_0.5e+3 " 4 = inr (false, 4).
Proof. apply (number_is_no_point " -1_0.5e+3 " 4). vm_compute. reflexivity. Defined.

(** ** The same document, extracted twice *)

(** A loop started [k] identities further does the same, [k] further. *)
Lemma for_each_shift {A B} (body : B → A → M B) (sh : B → B) (k : nat) (l : list A) :
  (∀ acc x n acc' n',
     body acc x n = inr (acc', n') → body (sh acc) x (n + k) = inr (sh acc', n' + k)) →
  ∀ acc n acc' n',
    for_each body l acc n = inr (acc', n') →
    for_each body l (sh acc) (n + k) = inr (sh acc', n' + k).
Proof.
  intros Hbody. induction l as [|x l IH]; intros acc n acc' n' H.
  - by injection H as <- <-.
  - cbn [for_each] in H |- *. apply bind_inv_inr in H as (acc1 & n1 & H1 & H).
    erewrite bind_inr by (by apply Hbody). by apply IH.
Qed.

Lemma classify_shift t n v n' k :
  classify t n = inr (v, n') →
  classify t (n + k) = inr (shift_value k v, n' + k).
Proof.
  pose proof (classify_cases t n) as H. pose proof (classify_cases t (n + k)) as Hk.
  destruct (Py.string_to_double t).
  - rewrite H, Hk. by intros [= <- <-].
  - destruct (Py.split t) as [|a [|b [|c [|d l]]]];
      try (rewrite H, Hk; by intros [= <- <-]).
    destruct (Py.string_to_double a), (Py.string_to_double b),
      (Py.string_to_double c); rewrite H, Hk; by intros [= <- <-].
Qed.

Lemma attribute_value_shift e n v n' k :
  attribute_value e n = inr (v, n') →
  attribute_value e (n + k) = inr (shift_value k v, n' + k).
Proof.
  destruct (text e) as [t|] eqn:Ht.
  - rewrite !(attribute_value_text e t) by done. apply classify_shift.
  - by rewrite attribute_value_no_text.
Qed.

Lemma feature_details_shift child n details n' k :
  feature_details child n = inr (details, n') →
  feature_details child (n + k) = inr (shift_value k <$> details, n' + k).
Proof.
  unfold feature_details. intros H.
  pose proof (for_each_shift
    (λ (details : Record_) sub_child,
       v ← attribute_value sub_child; mret (<[tag sub_child := v]> details))
    (fmap (shift_value k)) k (children child)) as Hs.
  rewrite <- (fmap_empty (shift_value k)). apply Hs; [|done].
  clear. intros d e n d' n' H.
  apply bind_inv_inr in H as (v & n1 & Hv & H). injection H as <- <-.
  erewrite bind_inr by (by apply attribute_value_shift).
  by rewrite ret_eq, fmap_insert.
Qed.

Lemma append_feature_shift features t details k :
  append_feature (shift_features k features) t (shift_value k <$> details) =
  shift_features k (append_feature features t details).
Proof.
  apply map_eq. intros T. unfold shift_features.
  rewrite lookup_fmap, !append_feature_lookup, lookup_fmap.
  destruct (decide (t = T)) as [<-|Hne]; [|by rewrite lookup_fmap].
  destruct (features !! t); simpl; by rewrite ?fmap_app.
Qed.

Lemma extract_features_shift root n features n' k :
  extract_features root n = inr (features, n') →
  extract_features root (n + k) = inr (shift_features k features, n' + k).
Proof.
  unfold extract_features. intros H.
  pose proof (for_each_shift
    (λ (features : CADFeatures) child,
       details ← feature_details child;
       mret (append_feature features (tag child) details))
    (shift_features k) k (children root)) as Hs.
  assert (He : shift_features k ∅ = ∅) by apply fmap_empty.
  rewrite <- He. apply Hs; [|done].
  clear. intros F child n F' n' H.
  apply bind_inv_inr in H as (d & n1 & Hd & H). injection H as <- <-.
  erewrite bind_inr by (by apply feature_details_shift).
  by rewrite ret_eq, append_feature_shift.
Qed.

Lemma ne_shift k v :
  Forall (λ f, Py.isnan (value_of f) = false) (value_floats v) →
  ne v (shift_value k v) = false.
Proof.
  destruct v as [f|x y z|s]; simpl.
  - intros [Hf _]%Forall_cons. by rewrite float_eq_refl.
  - intros [Hx [Hy [Hz _]%Forall_cons]%Forall_cons]%Forall_cons.
    unfold item_eq. simpl. rewrite !float_eq_refl by done.
    by rewrite !orb_true_r.
  - intros _. by rewrite String.eqb_refl.
Qed.

Lemma compare_features_shift (features : CADFeatures) k :
  no_nan_float features →
  compare_features features (shift_features k features) = no_differences.
Proof.
  intros Hnan. apply report_eq; simpl; apply map_eq; intros T;
    rewrite ?additions_lookup, ?modifications_lookup, ?removals_lookup, lookup_empty;
    unfold additions_at, modifications_at, removals_at, shift_features;
    rewrite lookup_fmap; destruct (features !! T) as [l|] eqn:HT; simpl; try done.
  - rewrite length_fmap. by rewrite bool_decide_eq_false_2 by lia.
  - specialize (Hnan T l HT). simpl in Hnan.
    assert (Hfm : feature_modifications
                    ((λ r : Record_, shift_value k <$> r) <$> l) l = []).
    { rewrite feature_modifications_omap. clear HT.
      induction l as [|r l IH]; [done|].
      apply Forall_cons in Hnan as [Hr Hl]. rewrite fmap_cons.
      cbn [zip zip_with omap list_omap].
      assert (Hnone : modification_of (shift_value k <$> r, r) = None).
      { apply modification_of_None, changed_fields_empty.
        intros key value Hk. rewrite lookup_fmap in Hk.
        destruct (r !! key) as [v|] eqn:Hv; [|done]. injection Hk as <-.
        exists v. split; [done|]. apply ne_shift. by apply (Hr key). }
      rewrite Hnone. by apply IH. }
    by rewrite Hfm.
  - rewrite length_fmap. by rewrite bool_decide_eq_false_2 by lia.
Qed.

(** X20. A document extracted twice, one extraction after the other,
    gives two collections without difference, provided no float of the
    document, attribute or coordinate, is NaN. *)
Theorem same_document_twice (root : Element) n cad1 n1 cad2 n2 :
  extract_features root n = inr (cad1, n1) →
  extract_features root n1 = inr (cad2, n2) →
  no_nan_float cad1 →
  compare_features cad1 cad2 = no_differences.
Proof.
  intros H1 H2 Hnan.
  pose proof (extract_features_ids root n cad1 n1 H1) as [Hle _].
  pose proof (extract_features_shift root n cad1 n1 (n1 - n) H1) as Hs.
  replace (n + (n1 - n)) with n1 in Hs by lia.
  rewrite H2 in Hs. injection Hs as -> _.
  by apply compare_features_shift.
Qed.

Lemma same_document_twice_witness :
  compare_features component_features (extracted component_root 6) = no_differences.
Proof.
  apply (same_document_twice component_root 2 component_features 6
           (extracted component_root 6) 10);
    [vm_compute; reflexivity..|compute_done].
Defined.

(** With a NaN coordinate the two extractions differ: the two points are
    two dicts, whose NaN entries are two objects. *)
Example nan_point_twice :
  compare_features (extracted nan_point_root 0) (extracted nan_point_root 3)
  ≠ no_differences.
Proof. vm_compute. discriminate. Qed.

(** ** extract_geometry_to_operation_mapping_from_dict *)

Lemma geometry_mappings_bind (operations : list (string * list (gmap string CamValue))) :
  geometry_mappings operations =
  operations ≫= λ '(operation_name, op_list),
    op_list ≫= λ op : gmap string CamValue,
      match op !! "Geometry" with
      | Some geometry => [(geometry, operation_name)]
      | None => []
      end.
Proof.
  unfold geometry_mappings.
  cut (∀ mappings,
    foldl (λ mappings '(operation_name, op_list),
      foldl (λ mappings (op : gmap string CamValue),
          match op !! "Geometry" with
          | Some geometry => mappings ++ [(geometry, operation_name)]
          | None => mappings
          end)
        mappings op_list) mappings operations =
    mappings ++ (operations ≫= λ '(operation_name, op_list),
      op_list ≫= λ op : gmap string CamValue,
        match op !! "Geometry" with
        | Some geometry => [(geometry, operation_name)]
        | None => []
        end)).
  { intros H. by rewrite H. }
  induction operations as [|[operation_name op_list] operations IH]; intros mappings.
  - by rewrite app_nil_r.
  - cbn [foldl]. rewrite IH, bind_cons, app_assoc. f_equal.
    clear. revert mappings. induction op_list as [|op op_list IH]; intros mappings.
    + by rewrite app_nil_r.
    + cbn [foldl]. rewrite IH, bind_cons.
      destruct (op !! "Geometry"); [by rewrite <- app_assoc|done].
Qed.

Lemma str_rows_filter g (operations : list (string * list (gmap string CamValue))) :
  (filter (λ row, row.1 = g) (str_rows operations)).*2 = operations_of_geometry g operations.
Proof.
  unfold str_rows, operations_of_geometry.
  induction operations as [|[operation_name op_list] operations IH]; [done|].
  rewrite !bind_cons, filter_app, fmap_app, IH. f_equal. clear.
  induction op_list as [|op op_list IH]; [done|].
  rewrite !bind_cons, filter_app, fmap_app, IH. f_equal.
  destruct (op !! "Geometry") as [[[f|x y z|s]|tool_info]|]; try done.
  rewrite filter_cons. cbn [fst]. by destruct (decide (s = g)).
Qed.

(** X21. For the operations [parse_cam_xml] returns, listed in any order:
    every row [extract_geometry_to_operation_mapping_from_dict] collects
    has a str as geometry, and the dict [read_geometry_to_operation_mapping]
    builds from these rows gives a geometry the types of the operations
    that have it, one per operation, in that order. *)
Theorem geometry_mapping_of_parsed (root : Element) n operations n'
    (items : list (string * list (gmap string CamValue))) :
  parse_cam_xml root n = inr (operations, n') →
  (∀ operation_type op_list,
     (operation_type, op_list) ∈ items → operations !! operation_type = Some op_list) →
  ∃ rows,
    geometry_mappings items = (λ row, (Leaf (Text row.1), row.2)) <$> rows ∧
    ∀ g, od_get g (geometry_to_operations rows) =
         match operations_of_geometry g items with
         | [] => None
         | operation_types => Some operation_types
         end.
Proof.
  intros Hparse Hitems. exists (str_rows items). split.
  - rewrite geometry_mappings_bind. unfold str_rows.
    assert (Hstr : ∀ operation_type op_list op v,
      (operation_type, op_list) ∈ items → op ∈ op_list →
      op !! "Geometry" = Some v → ∃ s, v = Leaf (Text s)).
    { intros operation_type op_list op v Hin Hop Hv.
      pose proof (parse_cam_xml_shapes root n operations n' Hparse
                    operation_type op_list op "Geometry" v (Hitems _ _ Hin) Hop Hv)
        as Hshape.
      assert (Hnum : "Geometry" ∉ NUMERIC_ATTRIBUTES) by compute_done.
      assert (Htool : "Geometry" ∉ TOOLSTYPELIST) by compute_done.
      destruct v as [[f|x y z|s]|tool_info]; simpl in Hshape;
        [tauto|done|by exists s|done]. }
    clear Hitems Hparse.
    induction items as [|[operation_name op_list] items IH]; [done|].
    rewrite !bind_cons, fmap_app, <- IH.
    2:{ intros ot ol op v Hin. apply (Hstr ot ol op v). by right. }
    f_equal.
    assert (Hops : ∀ op v, op ∈ op_list → op !! "Geometry" = Some v → ∃ s, v = Leaf (Text s)).
    { intros op v. apply (Hstr operation_name op_list). by left. }
    clear -Hops. induction op_list as [|op op_list IH]; [done|].
    rewrite !bind_cons, fmap_app, <- IH.
    2:{ intros op' v Hin. apply Hops. by right. }
    f_equal. destruct (op !! "Geometry") as [v|] eqn:Hv; [|done].
    destruct (Hops op v) as [s ->]; [by left|done|done].
  - intros g. unfold geometry_to_operations.
    rewrite geometry_fold_lookup, str_rows_filter. simpl.
    by destruct (operations_of_geometry g items).
Qed.

Lemma geometry_mapping_of_parsed_witness :
  ∃ rows,
    geometry_mappings
      [ ("Facing", [ ({[ "Geometry" := Leaf (Text "FACE1") ]} : gmap string CamValue) ]);
        ("Finishing",
          [ ({[ "Geometry" := Leaf (Text "FACE1");
                "Step" := Leaf (Number {| id_of := 0;
                            value_of := S754_finite false 4503599627370496 (-53) |}) ]}
             : gmap string CamValue) ]) ] =
    (λ row, (Leaf (Text row.1), row.2)) <$> rows ∧
    ∀ g, od_get g (geometry_to_operations rows) =
         match operations_of_geometry g
                 [ ("Facing", [ ({[ "Geometry" := Leaf (Text "FACE1") ]}
                                 : gmap string CamValue) ]);
                   ("Finishing",
                     [ ({[ "Geometry" := Leaf (Text "FACE1");
                           "Step" := Leaf (Number {| id_of := 0;
                             value_of := S754_finite false 4503599627370496 (-53) |}) ]}
                        : gmap string CamValue) ]) ] with
         | [] => None
         | operation_types => Some operation_types
         end.
Proof.
  eapply (geometry_mapping_of_parsed facing_root 0 _ 1).
  - vm_compute. reflexivity.
  - intros operation_type op_list Hin.
    apply elem_of_cons in Hin as [[= -> ->]|Hin]; [vm_compute; reflexivity|].
    apply list_elem_of_singleton in Hin. injection Hin as -> ->.
    vm_compute. reflexivity.
Defined.

Example facing_mapping :
  geometry_to_operations (str_rows
    [ ("Facing", [ ({[ "Geometry" := Leaf (Text "FACE1") ]} : gmap string CamValue) ]);
      ("Drilling", [ ({[ "Depth" := Leaf (Text "3") ]} : gmap string CamValue) ]);
      ("Finishing", [ ({[ "Geometry" := Leaf (Text "FACE1") ]} : gmap string CamValue) ]) ])
  = [("FACE1", ["Facing"; "Finishing"])].
Proof. vm_compute. reflexivity. Qed.
